(** * A tiny compiler for prefix arithmetic: lexer, parser, evaluator, code generator

    Shallow embedding of [src/index.ts] and the properties of its four
    functions [lex], [parse], [evaluate] and [compile].

    The program is TypeScript and runs on JavaScript values, so the embedding
    keeps JavaScript's data as it is:
    - a string is a sequence of UTF-16 code units ([jsstring]);
    - a number is an IEEE 754 binary64 value (Rocq's primitive [float]),
      with [nan], the two infinities and the two zeros;
    - [tokens[count]] past the end of the array is [undefined] ([None]);
    - an exception is an abrupt completion ([Throw]).

    The part of the ECMAScript library that the program calls ([split],
    [trim], [filter], [join], [parseInt], [RegExp.prototype.test],
    [reduce], [map], the conversion of a number to a string) is written out
    in module [JS], following ECMA-262. *)

From Stdlib Require Import ZArith NArith List Bool Lia String Ascii Floats.
Import ListNotations.

Set Implicit Arguments.
Set Warnings "-register-all".

(* ================================================================== *)
(** * The host language *)
(* ================================================================== *)

Module JS.

(** ** Strings *)

(** A JavaScript string: a finite sequence of 16-bit code units. *)
Definition jsstring : Type := list N.

(** The string written with ASCII characters only. *)
Definition js (s : string) : jsstring := map N_of_ascii (list_ascii_of_string s).

Definition jsstring_eqb (a b : jsstring) : bool :=
  if list_eq_dec N.eq_dec a b then true else false.

Definition SPACE : N := 32.
Definition TAB : N := 9.

(** WhiteSpace and LineTerminator code points of ECMA-262 (11.2, 11.3), the
    set that [trim] and [parseInt] strip: TAB, LF, VT, FF, CR, SP, NBSP,
    the Unicode space separators (Zs), LS, PS and ZWNBSP. *)
Definition is_whitespace (c : N) : bool :=
  ((c =? 9) || (c =? 10) || (c =? 11) || (c =? 12) || (c =? 13) || (c =? 32)
   || (c =? 160) || (c =? 5760) || ((8192 <=? c) && (c <=? 8202))
   || (c =? 8232) || (c =? 8233) || (c =? 8239) || (c =? 8287)
   || (c =? 12288) || (c =? 65279))%N.

Definition is_space (c : N) : bool := (c =? SPACE)%N.

(** [\d] of a regular expression without the [u] flag: [0-9]. *)
Definition is_digit (c : N) : bool := ((48 <=? c) && (c <=? 57))%N.

(** [String.prototype.split(sep)] for a separator of one code unit: the
    pieces between the occurrences, empty pieces included; the empty string
    gives one empty piece. *)
Fixpoint split (sep : N) (s : jsstring) : list jsstring :=
  match s with
  | [] => [[]]
  | c :: r =>
      if (c =? sep)%N then [] :: split sep r
      else match split sep r with
           | p :: ps => (c :: p) :: ps
           | [] => [[c]]
           end
  end.

Fixpoint trimStart (s : jsstring) : jsstring :=
  match s with
  | [] => []
  | c :: r => if is_whitespace c then trimStart r else s
  end.

Definition trimEnd (s : jsstring) : jsstring := rev (trimStart (rev s)).

(** [String.prototype.trim]. *)
Definition trim (s : jsstring) : jsstring := trimEnd (trimStart s).

(** [Array.prototype.join(sep)] on an array of strings. *)
Fixpoint join (sep : jsstring) (l : list jsstring) : jsstring :=
  match l with
  | [] => []
  | [x] => x
  | x :: r => x ++ sep ++ join sep r
  end.

(** [s.length > 0]. *)
Definition nonempty (s : jsstring) : bool :=
  match s with [] => false | _ :: _ => true end.

(** ** [undefined] *)

(** [ToString] of a value that is a string or [undefined]; it is also
    [ToPropertyKey] of such a value. *)
Definition ToString_opt (v : option jsstring) : jsstring :=
  match v with
  | Some s => s
  | None => js "undefined"
  end.

(** [ToBoolean] of a value that is a string or [undefined]: only the
    non-empty string is truthy. *)
Definition ToBoolean_opt (v : option jsstring) : bool :=
  match v with
  | Some s => nonempty s
  | None => false
  end.

(** [/\d/.test(v)]: the pattern is not anchored, so it asks whether
    [ToString v] contains a decimal digit somewhere. *)
Definition RegExp_digit_test (v : option jsstring) : bool :=
  existsb is_digit (ToString_opt v).

(** ** Numbers *)

Definition number : Type := float.

(** The Number value for a mathematical integer: round to nearest, ties to
    even, overflow to infinity. *)
Definition Number_of_Z (z : Z) : number :=
  SF2Prim (binary_normalize prec emax z 0 false).

(** Value of a digit in a radix up to 16, [None] when [c] is no digit of
    that radix. *)
Definition digit_value (radix : N) (c : N) : option N :=
  let v :=
    if ((48 <=? c) && (c <=? 57))%N then Some (c - 48)%N
    else if ((97 <=? c) && (c <=? 102))%N then Some (c - 87)%N
    else if ((65 <=? c) && (c <=? 70))%N then Some (c - 55)%N
    else None in
  match v with
  | Some d => if (d <? radix)%N then Some d else None
  | None => None
  end.

(** The longest prefix of radix digits, read as an integer; [None] when the
    prefix is empty. *)
Fixpoint digits_prefix (radix : N) (s : jsstring) (acc : option N) : option N :=
  match s with
  | [] => acc
  | c :: r =>
      match digit_value radix c with
      | Some d =>
          digits_prefix radix r
            (Some (match acc with Some a => a * radix + d | None => d end)%N)
      | None => acc
      end
  end.

(** An optional sign: is it [-], and the rest. *)
Definition read_sign (s : jsstring) : bool * jsstring :=
  match s with
  | c :: r => if (c =? 45)%N then (true, r)
              else if (c =? 43)%N then (false, r)
              else (false, s)
  | [] => (false, s)
  end.

(** An optional [0x] or [0X]: the radix, and the rest. *)
Definition read_prefix (s : jsstring) : N * jsstring :=
  match s with
  | c :: x :: r =>
      if ((c =? 48) && ((x =? 120) || (x =? 88)))%N then (16%N, r) else (10%N, s)
  | _ => (10%N, s)
  end.

(** [parseInt(s)] with no radix argument (ECMA-262 19.2.5): strip leading
    white space, read a sign, read a [0x] or [0X] prefix (radix 16, else
    radix 10), take the longest prefix of digits; no digit gives [NaN]. *)
Definition parseInt (s : jsstring) : number :=
  let '(negative, S2) := read_sign (trimStart s) in
  let '(radix, S3) := read_prefix S2 in
  match digits_prefix radix S3 None with
  | None => nan
  | Some mathInt =>
      let v := Number_of_Z (Z.of_N mathInt) in
      if negative then PrimFloat.opp v else v
  end.

(** *** [Number::toString] (ECMA-262 6.1.6.1.20), radix 10 *)

(** A non-negative rational [n / d] with [d > 0]. *)
Definition ratio : Type := (Z * Z)%type.

Definition scale2 (n e : Z) : ratio :=
  if (0 <=? e)%Z then (n * 2 ^ e, 1)%Z else (n, 2 ^ (- e))%Z.

Definition scale10 (n e : Z) : ratio :=
  if (0 <=? e)%Z then (n * 10 ^ e, 1)%Z else (n, 10 ^ (- e))%Z.

Definition ratio_lt (a b : ratio) : bool := (fst a * snd b <? fst b * snd a)%Z.
Definition ratio_eq (a b : ratio) : bool := (fst a * snd b =? fst b * snd a)%Z.

(** [|a - b|] over the common denominator [snd a * snd b]. *)
Definition ratio_dist (a b : ratio) : Z := Z.abs (fst a * snd b - fst b * snd a).

(** Does the real [v] round to the binary64 number [m * 2^e] (mantissa and
    exponent as [Prim2SF] gives them)?  The numbers that round to it lie
    between the midpoints to its two neighbours; a midpoint itself rounds
    to the neighbour with the even mantissa. *)
Definition rounds_to (m e : Z) (v : ratio) : bool :=
  let lower :=
    if ((m =? 2 ^ 52) && (-1074 <? e))%Z then scale2 (4 * m - 1) (e - 2)
    else scale2 (4 * m - 2) (e - 2) in
  let upper := scale2 (4 * m + 2) (e - 2) in
  (ratio_lt lower v && ratio_lt v upper)
  || (Z.even m && (ratio_eq lower v || ratio_eq v upper)).

(** The candidates [(s, n)] with [k] digits for [x = m * 2^e]:
    [10^(k-1) <= s < 10^k] and [s * 10^(n-k)] rounds to [x]. *)
Definition candidates (m e k : Z) (ns : list Z) : list (Z * Z) :=
  flat_map
    (fun n =>
       let '(xn, xd) := scale2 m e in
       let '(pn, pd) := scale10 1 (n - k) in
       let s0 := ((xn * pd) / (xd * pn))%Z in
       filter
         (fun sn => let s := fst sn in
                    (10 ^ (k - 1) <=? s)%Z && (s <? 10 ^ k)%Z
                    && rounds_to m e (scale10 s (n - k)))
         [(s0, n); ((s0 + 1)%Z, n)])
    ns.

(** Among candidates of one length, the one closest to [x]; of two equally
    close, the even one. *)
Definition closest (m e k : Z) (cs : list (Z * Z)) : option (Z * Z) :=
  let x := scale2 m e in
  (* the distance of candidate [sn] to [x] is [fst (key sn) / (snd (key sn) * snd x)] *)
  let key (sn : Z * Z) :=
    let v := scale10 (fst sn) (snd sn - k) in (ratio_dist v x, snd v) in
  fold_left
    (fun best sn =>
       match best with
       | None => Some sn
       | Some b =>
           let '(db, qb) := key b in
           let '(ds, qs) := key sn in
           if (ds * qb <? db * qs)%Z then Some sn
           else if ((ds * qb =? db * qs) && Z.even (fst sn))%Z then Some sn
           else best
       end)
    cs None.

(** The shortest digit string: the least [k] that has a candidate. *)
Fixpoint shortest (fuel : nat) (m e k : Z) (ns : list Z) : option (Z * Z * Z) :=
  match fuel with
  | O => None
  | S fuel =>
      match closest m e k (candidates m e k ns) with
      | Some (s, n) => Some (s, n, k)
      | None => shortest fuel m e (k + 1)%Z ns
      end
  end.

Fixpoint decimal_digits (fuel : nat) (z : Z) (acc : jsstring) : jsstring :=
  match fuel with
  | O => acc
  | S fuel =>
      let acc := (48 + Z.to_N (z mod 10))%N :: acc in
      if (z <? 10)%Z then acc else decimal_digits fuel (z / 10)%Z acc
  end.

(** The decimal digits of a non-negative integer. *)
Definition digits_of_Z (z : Z) : jsstring :=
  decimal_digits (S (Z.to_nat (Z.log2 z))) z [].

Definition zeros (n : Z) : jsstring := repeat 48%N (Z.to_nat n).

(** Steps 8 to 13 of [Number::toString]: the layout of the digits [s] (there
    are [k] of them) for the decimal exponent [n]. *)
Definition layout (s n k : Z) : jsstring :=
  let ds := digits_of_Z s in
  if ((-5 <=? n) && (n <=? 21))%Z then
    if (k <=? n)%Z then ds ++ zeros (n - k)
    else if (0 <? n)%Z then
      firstn (Z.to_nat n) ds ++ js "." ++ skipn (Z.to_nat n) ds
    else js "0." ++ zeros (- n) ++ ds
  else
    let ex := (n - 1)%Z in
    let exponent :=
      js "e" ++ (if (ex <? 0)%Z then js "-" else js "+") ++ digits_of_Z (Z.abs ex) in
    match ds with
    | [d] => [d] ++ exponent
    | d :: rest => [d] ++ js "." ++ rest ++ exponent
    | [] => exponent
    end.

(** [Number::toString(x, 10)]: what [ToString] gives for a number. *)
Definition Number_toString (x : number) : jsstring :=
  match Prim2SF x with
  | S754_nan => js "NaN"
  | S754_zero _ => js "0"
  | S754_infinity negative => if negative then js "-Infinity" else js "Infinity"
  | S754_finite negative m e =>
      let m := Zpos m in
      (* 10^(n0-1) <= x < 10^n0 for an n0 within one of this estimate *)
      let est := (((Z.log2 m + e) * 30103) / 100000)%Z in
      let ns := [est - 1; est; est + 1; est + 2; est + 3]%Z in
      (if negative then js "-" else [])
      ++ match shortest 17 m e 1 ns with
         | Some (s, n, k) => layout s n k
         | None => []
         end
  end.

End JS.

Import JS.

(** ** Completions *)

(** The two exceptions the program can raise, both a [TypeError]: calling
    a value that is no function, and [reduce] of an empty array without an
    initial value. *)
Inductive exn : Type :=
| NotAFunction
| ReduceOfEmptyArray.

(** How a call ends.  [Prototype] marks a run in which [operationMap[key]]
    found no own property but a member of [Object.prototype] (as for the key
    [toString]): what follows depends on that built-in and leaves the
    numbers and strings modelled here, so the embedding says nothing about
    such a run. *)
Inductive completion (A : Type) : Type :=
| Normal (a : A)
| Throw (e : exn)
| Prototype.
Arguments Throw {A} e.
Arguments Prototype {A}.

(** What [object[key]] finds on an object literal. *)
Inductive property (A : Type) : Type :=
| Own (a : A)
| Inherited
| Undefined.
Arguments Inherited {A}.
Arguments Undefined {A}.

(** The property names of [Object.prototype] (ECMA-262 20.1.3 and B.2.2). *)
Definition Object_prototype_keys : list jsstring :=
  map js
    [ "constructor"; "hasOwnProperty"; "isPrototypeOf"; "propertyIsEnumerable";
      "toLocaleString"; "toString"; "valueOf"; "__proto__";
      "__defineGetter__"; "__defineSetter__"; "__lookupGetter__";
      "__lookupSetter__" ]%string.

Definition in_Object_prototype (key : jsstring) : bool :=
  existsb (jsstring_eqb key) Object_prototype_keys.

(** [operationMap[key]] for an object literal with the own properties
    [sum], [sub], [div] and [mul]. *)
Definition get (A : Type) (sum sub div mul : A) (key : jsstring) : property A :=
  if jsstring_eqb key (js "sum") then Own sum
  else if jsstring_eqb key (js "sub") then Own sub
  else if jsstring_eqb key (js "div") then Own div
  else if jsstring_eqb key (js "mul") then Own mul
  else if in_Object_prototype key then Inherited
  else Undefined.

Section ArrayMap.
Variables (A B : Type) (f : A -> completion B).

(** [Array.prototype.map] with a callback that may not return normally:
    elements are visited left to right and the first abrupt completion
    ends the loop. *)
Fixpoint Array_map (l : list A) : completion (list B) :=
  match l with
  | [] => Normal []
  | x :: r =>
      match f x with
      | Normal y =>
          match Array_map r with
          | Normal ys => Normal (y :: ys)
          | Throw e => Throw e
          | Prototype => Prototype
          end
      | Throw e => Throw e
      | Prototype => Prototype
      end
  end.
End ArrayMap.

(** [Array.prototype.reduce(f, init)] on an array of numbers; [init] is
    [None] when the call has one argument. *)
Definition reduce (f : number -> number -> number) (init : option number)
    (args : list number) : completion number :=
  match init, args with
  | Some a, _ => Normal (fold_left f args a)
  | None, a :: rest => Normal (fold_left f rest a)
  | None, [] => Throw ReduceOfEmptyArray
  end.

(* ================================================================== *)
(** * The program *)
(* ================================================================== *)

(** ** Lexer *)

(** [str.split(' ').map((s) => s.trim()).filter((s) => s.length > 0)] *)
Definition lex (str : jsstring) : list jsstring :=
  filter nonempty (map trim (split SPACE str)).

(** ** Syntax tree *)

(** [type Parser = NumberParser | OperationParser].  The field [type] is the
    constructor.  [val] of an operation is declared a string, but [parseOp]
    stores [tokens[count]], which is [undefined] past the end. *)
Inductive Parser : Type :=
| NumberParser (val : number)
| OperationParser (val : option jsstring) (expression : list Parser).

(** ** Parser *)

(** [tokens[count]] *)
Definition peek (tokens : list jsstring) (count : nat) : option jsstring :=
  nth_error tokens count.

(** [tokens[count++]]: the token and the new value of [count]. *)
Definition consume (tokens : list jsstring) (count : nat) : option jsstring * nat :=
  (nth_error tokens count, S count).

Definition parseNum (tokens : list jsstring) (count : nat) : Parser * nat :=
  let '(t, count) := consume tokens count in
  (NumberParser (parseInt (ToString_opt t)), count).

(** The three mutually recursive parts of [parse], with the cursor [count]
    passed in and returned.  [fuel] bounds the depth of calls; [None] means
    the bound was too small and is no outcome of the program
    (see [parse_total]). *)
Fixpoint parseExpression (fuel : nat) (tokens : list jsstring) (count : nat)
    {struct fuel} : option (Parser * nat) :=
  match fuel with
  | O => None
  | S fuel =>
      if RegExp_digit_test (peek tokens count)
      then Some (parseNum tokens count)
      else parseOp fuel tokens count
  end
with parseOp (fuel : nat) (tokens : list jsstring) (count : nat)
    {struct fuel} : option (Parser * nat) :=
  match fuel with
  | O => None
  | S fuel =>
      let '(val, count) := consume tokens count in
      match parseOp_while fuel tokens count [] with
      | Some (expression, count) => Some (OperationParser val expression, count)
      | None => None
      end
  end
(** [while (peek()) { node.expression.push(parseExpression()); }] *)
with parseOp_while (fuel : nat) (tokens : list jsstring) (count : nat)
    (expression : list Parser) {struct fuel} : option (list Parser * nat) :=
  match fuel with
  | O => None
  | S fuel =>
      if ToBoolean_opt (peek tokens count) then
        match parseExpression fuel tokens count with
        | Some (e, count) => parseOp_while fuel tokens count (expression ++ [e])
        | None => None
        end
      else Some (expression, count)
  end.

(** Enough fuel for any run on [tokens]. *)
Definition parse_fuel (tokens : list jsstring) : nat := 3 * List.length tokens + 3.

(** [parse(tokens)]: [count = 0], then one [parseExpression()]. *)
Definition parse (tokens : list jsstring) : option Parser :=
  match parseExpression (parse_fuel tokens) tokens 0 with
  | Some (ast, _) => Some ast
  | None => None
  end.

(** ** Evaluator *)

(** The [operationMap] of [evaluate]. *)
Definition evaluate_operationMap : jsstring -> property (list number -> completion number) :=
  get (reduce PrimFloat.add (Some 0%float))
      (reduce PrimFloat.sub None)
      (reduce PrimFloat.div None)
      (reduce PrimFloat.mul (Some 1%float)).

(** [ast.type === Num ? ast.val : operationMap[ast.val](ast.expression.map(evaluate))].
    The arguments are evaluated before the call is attempted. *)
Fixpoint evaluate (ast : Parser) : completion number :=
  match ast with
  | NumberParser val => Normal val
  | OperationParser val expression =>
      match Array_map evaluate expression with
      | Normal args =>
          match evaluate_operationMap (ToString_opt val) with
          | Own f => f args
          | Undefined => Throw NotAFunction
          | Inherited => Prototype
          end
      | Throw e => Throw e
      | Prototype => Prototype
      end
  end.

(** ** Code generator *)

(** What [compile] returns: [compileNum] hands back [ast.val], a number;
    [compileOp] builds a string. *)
Inductive value : Type :=
| VNum (n : number)
| VStr (s : jsstring).

(** [ToString], which [join] applies to each element. *)
Definition ToString (v : value) : jsstring :=
  match v with
  | VNum n => Number_toString n
  | VStr s => s
  end.

(** The [operationMap] of [compile]. *)
Definition compile_operationMap : jsstring -> property jsstring :=
  get (js "+") (js "-") (js "/") (js "*").

Definition compileNum (val : number) : value := VNum val.

Fixpoint _compile (ast : Parser) : completion value :=
  match ast with
  | NumberParser val => Normal (compileNum val)
  | OperationParser val expression =>
      (* compileOp *)
      match Array_map _compile expression with
      | Normal parts =>
          let wrap (symbol : jsstring) :=
            Normal (VStr (js "(" ++ join (js " " ++ symbol ++ js " ") (map ToString parts)
                          ++ js ")")) in
          match compile_operationMap (ToString_opt val) with
          | Own symbol => wrap symbol
          | Undefined => wrap (js "undefined")
          | Inherited => Prototype
          end
      | Throw e => Throw e
      | Prototype => Prototype
      end
  end.

Definition compile (ast : Parser) : completion value := _compile ast.

(* ================================================================== *)
(** * The specification's vocabulary *)
(* ================================================================== *)

(** ** Runs of characters *)

Definition flush (cur : jsstring) : list jsstring :=
  if nonempty cur then [cur] else [].

(** The maximal runs of characters that are no separator, left to right:
    [cur] is the run being read. *)
Fixpoint runs_from (sep : N -> bool) (cur s : jsstring) : list jsstring :=
  match s with
  | [] => flush cur
  | c :: r =>
      if sep c then flush cur ++ runs_from sep [] r
      else runs_from sep (cur ++ [c]) r
  end.

Definition runs (sep : N -> bool) (s : jsstring) : list jsstring :=
  runs_from sep [] s.

(** A string that does not start with white space. *)
Definition starts_clean (s : jsstring) : bool :=
  match s with
  | [] => true
  | c :: _ => negb (is_whitespace c)
  end.

(** A string that [trim] leaves alone: it neither starts nor ends with
    white space. *)
Definition trimmed (s : jsstring) : Prop :=
  starts_clean s = true /\ starts_clean (rev s) = true.

(** ** Trees *)

(** All the nodes of a tree, the root first. *)
Fixpoint nodes (ast : Parser) : list Parser :=
  ast :: match ast with
         | NumberParser _ => []
         | OperationParser _ expression => flat_map nodes expression
         end.

(** The pattern [^[0-9]+$] of the grammar's [number]. *)
Definition all_digits (t : jsstring) : bool := nonempty t && forallb is_digit t.

(** The integer that a string of decimal digits denotes. *)
Definition decimal_value (t : jsstring) : N :=
  fold_left (fun a c => a * 10 + (c - 48))%N t 0%N.

(** The integer that a number is, when its value is one ([None] for a
    fraction, an infinity or [NaN]). *)
Definition integer_of (x : number) : option Z :=
  match Prim2SF x with
  | S754_zero _ => Some 0%Z
  | S754_finite s m e =>
      let sign := if s then (-1)%Z else 1%Z in
      if (0 <=? e)%Z then Some (sign * (Zpos m * 2 ^ e))%Z
      else if (Zpos m mod 2 ^ (- e) =? 0)%Z then Some (sign * (Zpos m / 2 ^ (- e)))%Z
      else None
  | _ => None
  end.

(** Where a node of [parse(tokens)] comes from.  A number node was read at a
    token that contains a decimal digit and carries [parseInt] of it.  An
    operation node was read at a position [i] whose token (or [undefined])
    contains no digit, carries that token as its operator, and has operands
    exactly when the token after it exists and is not empty. *)
Definition built (tokens : list jsstring) (node : Parser) : Prop :=
  match node with
  | NumberParser val =>
      exists i t, nth_error tokens i = Some t
                  /\ existsb is_digit t = true
                  /\ val = parseInt t
  | OperationParser val expression =>
      exists i, (i < List.length tokens \/ tokens = [])
                /\ val = nth_error tokens i
                /\ RegExp_digit_test val = false
                /\ (ToBoolean_opt (nth_error tokens (S i)) = true -> expression <> [])
                /\ (ToBoolean_opt (nth_error tokens (S i)) = false -> expression = [])
  end.

(** ** Operators *)

(** The four operator kinds of the specification. *)
Inductive OperatorKind : Type := Sum | Sub | Div | Mul.

(** The infix symbol of an operator. *)
Definition symbol (op : OperatorKind) : jsstring :=
  match op with
  | Sum => js "+"
  | Sub => js "-"
  | Div => js "/"
  | Mul => js "*"
  end.

(** The kind that an operator string names, if it is one of the four. *)
Definition operator_of (val : option jsstring) : option OperatorKind :=
  match val with
  | Some s =>
      if jsstring_eqb s (js "sum") then Some Sum
      else if jsstring_eqb s (js "sub") then Some Sub
      else if jsstring_eqb s (js "div") then Some Div
      else if jsstring_eqb s (js "mul") then Some Mul
      else None
  | None => None
  end.

(** Every operation node carries one of the four operators. *)
Fixpoint recognized (ast : Parser) : bool :=
  match ast with
  | NumberParser _ => true
  | OperationParser val expression =>
      match operator_of val with
      | Some _ => forallb recognized expression
      | None => false
      end
  end.

(** Every operation node carries one of the four operators, and a [sub] or
    [div] node has at least one operand. *)
Fixpoint well_formed (ast : Parser) : bool :=
  match ast with
  | NumberParser _ => true
  | OperationParser val expression =>
      match operator_of val with
      | Some Sub | Some Div =>
          negb (Nat.eqb (List.length expression) 0) && forallb well_formed expression
      | Some Sum | Some Mul => forallb well_formed expression
      | None => false
      end
  end.

(** A number that is [+0] or [-0]. *)
Definition is_zero (x : number) : bool :=
  match Prim2SF x with
  | S754_zero _ => true
  | _ => false
  end.

(** A number with an integral value. *)
Definition is_integer (x : number) : bool :=
  match Prim2SF x with
  | S754_zero _ => true
  | S754_finite _ m e => ((0 <=? e) || (Zpos m mod 2 ^ (- e) =? 0))%Z
  | _ => false
  end.

(** No [div] node has an operand after the first whose value is zero. *)
Fixpoint zero_free (ast : Parser) : bool :=
  match ast with
  | NumberParser _ => true
  | OperationParser val expression =>
      forallb zero_free expression
      && match operator_of val with
         | Some Div =>
             forallb (fun e => match evaluate e with
                               | Normal x => negb (is_zero x)
                               | _ => true
                               end)
                     (tl expression)
         | _ => true
         end
  end.

(** ** The results the specification describes *)

Fixpoint sequence (A : Type) (l : list (option A)) : option (list A) :=
  match l with
  | [] => Some []
  | Some x :: r =>
      match sequence r with
      | Some xs => Some (x :: xs)
      | None => None
      end
  | None :: _ => None
  end.

(** The value of a tree in the words of the specification: the stored
    value of a number node; for [sum] the left fold of the operands' values
    from 0 with addition, for [mul] from 1 with multiplication; for [sub]
    and [div] the left fold that starts from the first operand's value.
    [None] where the specification gives no value (another operator, or
    [sub] or [div] of nothing). *)
Fixpoint folded (ast : Parser) : option number :=
  match ast with
  | NumberParser val => Some val
  | OperationParser val expression =>
      match sequence (map folded expression), operator_of val with
      | Some vs, Some Sum => Some (fold_left PrimFloat.add vs 0%float)
      | Some vs, Some Mul => Some (fold_left PrimFloat.mul vs 1%float)
      | Some (v :: rest), Some Sub => Some (fold_left PrimFloat.sub rest v)
      | Some (v :: rest), Some Div => Some (fold_left PrimFloat.div rest v)
      | _, _ => None
      end
  end.

(** The infix text of a tree in the words of the specification: the
    decimal string of a number; for an operation the texts of the operands
    joined with the operator's symbol between single spaces, in
    parentheses.  [None] when an operator is none of the four. *)
Fixpoint infix (ast : Parser) : option jsstring :=
  match ast with
  | NumberParser val => Some (Number_toString val)
  | OperationParser val expression =>
      match sequence (map infix expression), operator_of val with
      | Some parts, Some op =>
          Some (js "(" ++ join (js " " ++ symbol op ++ js " ") parts ++ js ")")
      | _, _ => None
      end
  end.

(** ** Reading a tree back *)

Definition is_number (ast : Parser) : bool :=
  match ast with
  | NumberParser _ => true
  | OperationParser _ _ => false
  end.

(** What a node holds, its operands left aside: the number, or the
    operator. *)
Definition head_of (node : Parser) : number + option jsstring :=
  match node with
  | NumberParser val => inl val
  | OperationParser val _ => inr val
  end.

(** What the parser makes of [tokens[i]] when it reads a node there. *)
Definition head_at (tokens : list jsstring) (i : nat) : number + option jsstring :=
  let t := nth_error tokens i in
  if RegExp_digit_test t then inl (parseInt (ToString_opt t)) else inr t.

(** The same for a token at hand. *)
Definition classify (t : jsstring) : number + option jsstring :=
  if existsb is_digit t then inl (parseInt t) else inr (Some t).

(** In an operand list, every operand before the last is a number. *)
Definition shape_ok (node : Parser) : bool :=
  match node with
  | NumberParser _ => true
  | OperationParser _ expression => forallb is_number (removelast expression)
  end.

(** No operator of the tree names a member of [Object.prototype]. *)
Fixpoint own_keys (ast : Parser) : bool :=
  match ast with
  | NumberParser _ => true
  | OperationParser val expression =>
      negb (in_Object_prototype (ToString_opt val)) && forallb own_keys expression
  end.

(** The operation nodes of a tree. *)
Definition operations (ast : Parser) : list Parser :=
  filter (fun n => negb (is_number n)) (nodes ast).

(** How often the code unit [c] occurs in [s]. *)
Definition occurrences (c : N) (s : jsstring) : nat := count_occ N.eq_dec s c.

Definition LPAREN : N := 40.
Definition RPAREN : N := 41.

(** A string whose code units all lie above [*] (U+002A): signs, the
    point, digits and letters, but no parenthesis. *)
Definition plain (s : jsstring) : Prop :=
  forallb (fun d => (42 <? d)%N) s = true.

(** A token as [lex] returns them. *)
Definition clean_token (t : jsstring) : Prop :=
  nonempty t = true /\ trimmed t /\ ~ In SPACE t.

(** ** The two pipelines of the script *)

(** [evaluate(parse(lex(program)))] *)
Definition interpret (program : jsstring) : option (completion number) :=
  option_map evaluate (parse (lex program)).

(** [compile(parse(lex(program)))] *)
Definition translate (program : jsstring) : option (completion value) :=
  option_map compile (parse (lex program)).

(** The keyword of an operator kind. *)
Definition keyword (op : OperatorKind) : jsstring :=
  match op with
  | Sum => js "sum"
  | Sub => js "sub"
  | Div => js "div"
  | Mul => js "mul"
  end.

(** The number that a token of decimal digits denotes. *)
Definition numeral (t : jsstring) : number :=
  Number_of_Z (Z.of_N (decimal_value t)).

(* ================================================================== *)
(** * The program on its documented inputs *)
(* ================================================================== *)

(** The lexer comment of the source: ["sub 2 sum 1 3 4"] becomes
    [["sub", "2", "sum", "1", "3", "4"]]. *)
Example lex_program :
  lex (js "sub 2 sum 1 3 4") = map js ["sub"; "2"; "sum"; "1"; "3"; "4"]%string.
Proof. reflexivity. Qed.

(** The parser comment of the source: the tree [sub (2, sum (1, 3, 4))]. *)
Example parse_program :
  parse (lex (js "sub 2 sum 1 3 4")) =
  Some (OperationParser (Some (js "sub"))
          [NumberParser 2%float;
           OperationParser (Some (js "sum"))
             [NumberParser 1%float; NumberParser 3%float; NumberParser 4%float]]).
Proof. vm_compute. reflexivity. Qed.

Example evaluate_program :
  option_map evaluate (parse (lex (js "sub 2 sum 1 3 4"))) = Some (Normal (-6)%float).
Proof. vm_compute. reflexivity. Qed.

Example compile_program :
  option_map compile (parse (lex (js "sub 2 sum 1 3 4"))) =
  Some (Normal (VStr (js "(2 - (1 + 3 + 4))"))).
Proof. vm_compute. reflexivity. Qed.

Example evaluate_mul :
  option_map evaluate (parse (lex (js "mul 2 3 4"))) = Some (Normal 24%float).
Proof. vm_compute. reflexivity. Qed.

(** A bare operator: [reduce] without an initial value raises on the empty
    array, and [compile] gives empty parentheses. *)
Example evaluate_sub_alone :
  option_map evaluate (parse (lex (js "sub"))) = Some (Throw ReduceOfEmptyArray)
  /\ option_map compile (parse (lex (js "sub"))) = Some (Normal (VStr (js "()"))).
Proof. split; vm_compute; reflexivity. Qed.

(** An unknown operator: [operationMap.pow] is [undefined], and calling it
    raises. *)
Example evaluate_pow :
  option_map evaluate (parse (lex (js "pow 2 3"))) = Some (Throw NotAFunction).
Proof. vm_compute. reflexivity. Qed.

(** [Number::toString] on some numbers. *)
Example Number_toString_samples :
  map Number_toString
      [24; 1 / 3; 3 / 2; 1000000000000000000000; 1 / 10000000; - (5 / 2);
       1 / 0; 0 / 0; - 0]%float
  = map js ["24"; "0.3333333333333333"; "1.5"; "1e+21"; "1e-7"; "-2.5";
            "Infinity"; "NaN"; "0"]%string.
Proof. vm_compute. reflexivity. Qed.

(** [parseInt] on some strings. *)
Example parseInt_samples :
  map (fun s => parseInt (js s)) ["42"; "  42abc"; "-5"; "0x1f"; "x1"; "0x"]%string
  = [42; 42; -5; 31; nan; nan]%float.
Proof. vm_compute. reflexivity. Qed.

(* ================================================================== *)
(** * Facts about the host language *)
(* ================================================================== *)

Section Strings.

Lemma split_cons (sep : N) (s : jsstring) :
  exists p ps, split sep s = p :: ps.
Proof.
  induction s as [|c r [p [ps IH]]]; simpl.
  - now exists [], [].
  - destruct (c =? sep)%N.
    + now exists [], (split sep r).
    + rewrite IH. now exists (c :: p), ps.
Qed.

Lemma split_pieces_in (sep : N) (s : jsstring) :
  forall p c, In p (split sep s) -> In c p -> In c s /\ c <> sep.
Proof.
  induction s as [|a r IH]; simpl; intros p c Hp Hc.
  - destruct Hp as [<- | []]. destruct Hc.
  - destruct (N.eqb_spec a sep) as [-> | Hne].
    + destruct Hp as [<- | Hp]; [destruct Hc|].
      destruct (IH _ _ Hp Hc); auto.
    + destruct (split_cons sep r) as [q [qs Hq]]. rewrite Hq in *.
      destruct Hp as [<- | Hp].
      * destruct Hc as [<- | Hc]; [auto|].
        destruct (IH q c (or_introl eq_refl) Hc); auto.
      * destruct (IH p c (or_intror Hp) Hc); auto.
Qed.

Lemma split_no_sep (sep : N) (x : jsstring) :
  ~ In sep x -> split sep x = [x].
Proof.
  induction x as [|c r IH]; simpl; intros H; [reflexivity|].
  destruct (N.eqb_spec c sep) as [-> | _]; [tauto|].
  rewrite IH; tauto.
Qed.

Lemma split_app (sep : N) (x rest : jsstring) :
  ~ In sep x -> split sep (x ++ sep :: rest) = x :: split sep rest.
Proof.
  induction x as [|c r IH]; simpl; intros H.
  - now rewrite N.eqb_refl.
  - destruct (N.eqb_spec c sep) as [-> | _]; [tauto|].
    rewrite IH; tauto.
Qed.

Lemma split_join (l : list jsstring) :
  l <> [] -> Forall (fun t => ~ In SPACE t) l ->
  split SPACE (join [SPACE] l) = l.
Proof.
  induction l as [|x r IH]; intros Hne Hl; [congruence|].
  inversion Hl as [|? ? Hx Hr]; subst.
  destruct r as [|y r].
  - simpl. now apply split_no_sep.
  - change (join [SPACE] (x :: y :: r)) with (x ++ SPACE :: join [SPACE] (y :: r)).
    rewrite split_app by assumption.
    rewrite IH; [reflexivity | discriminate | assumption].
Qed.

(** [trimStart] removes a prefix of white space. *)
Lemma trimStart_prefix (s : jsstring) :
  exists pre, s = pre ++ trimStart s /\ forallb is_whitespace pre = true.
Proof.
  induction s as [|c r [pre [E W]]]; simpl.
  - now exists [].
  - destruct (is_whitespace c) eqn:Hc.
    + exists (c :: pre). simpl. rewrite Hc, W. split; [now f_equal | reflexivity].
    + now exists [].
Qed.

Lemma trimStart_clean (s : jsstring) : starts_clean (trimStart s) = true.
Proof.
  induction s as [|c r IH]; simpl; [reflexivity|].
  destruct (is_whitespace c) eqn:Hc; [assumption|]. simpl. now rewrite Hc.
Qed.

Lemma trimStart_id (s : jsstring) : starts_clean s = true -> trimStart s = s.
Proof.
  destruct s as [|c r]; simpl; [reflexivity|].
  now destruct (is_whitespace c).
Qed.

Lemma trimStart_whitespace (s : jsstring) :
  forallb is_whitespace s = true -> trimStart s = [].
Proof.
  induction s as [|c r IH]; simpl; [reflexivity|].
  destruct (is_whitespace c); simpl; [assumption | discriminate].
Qed.

Lemma trim_id (s : jsstring) : trimmed s -> trim s = s.
Proof.
  intros [H1 H2]. unfold trim, trimEnd.
  now rewrite (trimStart_id s H1), (trimStart_id _ H2), rev_involutive.
Qed.

Lemma trim_trimmed (s : jsstring) : trimmed (trim s).
Proof.
  unfold trimmed, trim, trimEnd.
  rewrite rev_involutive. split; [|apply trimStart_clean].
  pose proof (trimStart_clean s) as Ha.
  destruct (trimStart_prefix (rev (trimStart s))) as [pre [E _]].
  set (a := trimStart s) in *. set (b := trimStart (rev a)) in *.
  assert (Ea : a = rev b ++ rev pre).
  { rewrite <- rev_app_distr, <- E. now rewrite rev_involutive. }
  destruct (rev b) as [|c r] eqn:Hb; [reflexivity|].
  rewrite Ea in Ha. exact Ha.
Qed.

Lemma trim_idempotent (s : jsstring) : trim (trim s) = trim s.
Proof. apply trim_id, trim_trimmed. Qed.

Lemma trim_in (s : jsstring) (c : N) : In c (trim s) -> In c s.
Proof.
  unfold trim, trimEnd. intros H. apply in_rev in H.
  destruct (trimStart_prefix (rev (trimStart s))) as [pre [E _]].
  assert (H' : In c (rev (trimStart s))) by (rewrite E; apply in_or_app; auto).
  apply in_rev in H'.
  destruct (trimStart_prefix s) as [pre' [E' _]].
  rewrite E'. apply in_or_app; auto.
Qed.

Lemma trim_whitespace (s : jsstring) :
  forallb is_whitespace s = true -> trim s = [].
Proof.
  intros H. unfold trim, trimEnd. now rewrite (trimStart_whitespace s H).
Qed.

(** A string without white space is trimmed. *)
Lemma no_whitespace_trimmed (s : jsstring) :
  Forall (fun c => is_whitespace c = false) s -> trimmed s.
Proof.
  intros H. split.
  - destruct H as [|c r Hc _]; simpl; [reflexivity | now rewrite Hc].
  - apply Forall_rev in H.
    destruct H as [|c r Hc _]; simpl; [reflexivity | now rewrite Hc].
Qed.

End Strings.

(* ================================================================== *)
(** * The lexer *)
(* ================================================================== *)

Section Lexer.

Lemma filter_nonempty_cons (p : jsstring) (ps : list jsstring) :
  filter nonempty (p :: ps) = flush p ++ filter nonempty ps.
Proof. unfold flush. simpl. now destruct (nonempty p). Qed.

(** The non-empty pieces of [split(' ')] are the runs of characters other
    than U+0020. *)
Lemma runs_from_split (s cur : jsstring) :
  runs_from is_space cur s =
  match split SPACE s with
  | p :: ps => flush (cur ++ p) ++ filter nonempty ps
  | [] => []
  end.
Proof.
  revert cur. induction s as [|c r IH]; intros cur; simpl.
  - now rewrite !app_nil_r.
  - unfold is_space. destruct (c =? SPACE)%N.
    + rewrite IH, app_nil_r. destruct (split_cons SPACE r) as [p [ps ->]].
      now rewrite filter_nonempty_cons.
    + rewrite IH. destruct (split_cons SPACE r) as [p [ps ->]].
      now rewrite <- app_assoc.
Qed.

Lemma runs_split (s : jsstring) :
  runs is_space s = filter nonempty (split SPACE s).
Proof.
  unfold runs. rewrite runs_from_split.
  destruct (split_cons SPACE s) as [p [ps ->]].
  now rewrite filter_nonempty_cons.
Qed.

Lemma runs_from_ext (p q : N -> bool) (s cur : jsstring) :
  (forall c, In c s -> p c = q c) ->
  runs_from p cur s = runs_from q cur s.
Proof.
  revert cur. induction s as [|c r IH]; intros cur H; simpl; [reflexivity|].
  rewrite <- (H c) by now left.
  destruct (p c); [f_equal|]; apply IH; intros; apply H; now right.
Qed.

(** Every run is non-empty and holds no separator. *)
Lemma runs_from_Forall (sep : N -> bool) (s cur : jsstring) :
  Forall (fun c => sep c = false) cur ->
  Forall (fun t => nonempty t = true /\ Forall (fun c => sep c = false) t)
         (runs_from sep cur s).
Proof.
  assert (F : forall cur, Forall (fun c => sep c = false) cur ->
            Forall (fun t => nonempty t = true /\ Forall (fun c => sep c = false) t)
                   (flush cur)).
  { intros [|c r] H; unfold flush; simpl; constructor; auto. }
  revert cur. induction s as [|c r IH]; intros cur H; simpl.
  - now apply F.
  - destruct (sep c) eqn:Hc.
    + apply Forall_app. split; [now apply F | apply IH; constructor].
    + apply IH. apply Forall_app. split; [assumption | now repeat constructor].
Qed.

Lemma filter_trim_nonempty (l : list jsstring) :
  filter nonempty (map trim (filter nonempty l)) = filter nonempty (map trim l).
Proof.
  induction l as [|x r IH]; simpl; [reflexivity|].
  destruct x as [|c x]; simpl; [exact IH|].
  now rewrite IH.
Qed.

(** What [lex] computes, in terms of runs: each maximal run of characters
    other than U+0020 is trimmed, and a run that trims to nothing is
    dropped. *)
Lemma lex_runs_of_space (s : jsstring) :
  lex s = filter nonempty (map trim (runs is_space s)).
Proof. unfold lex. now rewrite runs_split, filter_trim_nonempty. Qed.

Lemma filter_trim_clean (l : list jsstring) :
  Forall (fun t => nonempty t = true /\ Forall (fun c => is_whitespace c = false) t) l ->
  filter nonempty (map trim l) = l.
Proof.
  induction 1 as [|t r [Hn Hw] _ IH]; simpl; [reflexivity|].
  rewrite (trim_id (no_whitespace_trimmed Hw)), Hn. now f_equal.
Qed.

(** The tokens [lex] returns: non-empty, trimmed, without U+0020. *)
Lemma lex_tokens (s : jsstring) :
  Forall (fun t => nonempty t = true /\ trimmed t /\ ~ In SPACE t) (lex s).
Proof.
  unfold lex. apply Forall_forall. intros t Ht.
  apply filter_In in Ht. destruct Ht as [Ht Hn].
  apply in_map_iff in Ht. destruct Ht as [p [<- Hp]].
  repeat split; [assumption | apply trim_trimmed | apply trim_trimmed |].
  intros Hs. apply trim_in in Hs.
  now destruct (@split_pieces_in SPACE s p SPACE Hp Hs).
Qed.

Lemma lex_join (l : list jsstring) :
  Forall (fun t => nonempty t = true /\ trimmed t /\ ~ In SPACE t) l ->
  lex (join [SPACE] l) = l.
Proof.
  intros H. destruct l as [|x r]; [reflexivity|].
  unfold lex. rewrite split_join.
  - induction H as [|t l [Hn [Ht _]] _ IH]; simpl; [reflexivity|].
    rewrite (trim_id Ht), Hn. now f_equal.
  - discriminate.
  - eapply Forall_impl; [|exact H]. simpl. tauto.
Qed.

End Lexer.

(** C8 (as amended).  [lex] splits at U+0020 only.  For every input, its
    result is the sequence of maximal runs of characters other than U+0020,
    each trimmed of white space, without the runs that trim to nothing.  When
    the only white space in the input is U+0020, that is exactly the sequence
    of maximal runs of non-white-space characters, in order.  An input of
    white space only (of any kind, the empty input included) gives no token.
    [lex] is a total function: it has no failure. *)
Theorem lex_maximal_runs :
  forall s : jsstring,
    lex s = filter nonempty (map trim (runs is_space s))
    /\ ((forall c, In c s -> is_whitespace c = true -> c = SPACE) ->
        lex s = runs is_whitespace s)
    /\ (forallb is_whitespace s = true -> lex s = []).
Proof.
  intros s. split; [apply lex_runs_of_space | split].
  - intros H. rewrite lex_runs_of_space.
    assert (E : runs is_space s = runs is_whitespace s).
    { apply runs_from_ext. intros c Hc. unfold is_space.
      destruct (is_whitespace c) eqn:Hw.
      - rewrite (H c Hc Hw). apply N.eqb_refl.
      - destruct (N.eqb_spec c SPACE) as [-> | _]; [discriminate | reflexivity]. }
    rewrite E. apply filter_trim_clean. apply runs_from_Forall. constructor.
  - intros H. unfold lex.
    assert (A : forall p, In p (split SPACE s) -> trim p = []).
    { intros p Hp. apply trim_whitespace. apply forallb_forall. intros c Hc.
      destruct (@split_pieces_in SPACE s p c Hp Hc) as [Hin _].
      rewrite forallb_forall in H. now apply H. }
    induction (split SPACE s) as [|p ps IH]; simpl; [reflexivity|].
    rewrite (A p) by now left. simpl. apply IH. intros q Hq. apply A. now right.
Qed.

(** C8, an input the theorem applies to: ["sub 2  sum 1"]. *)
Lemma lex_maximal_runs_witness :
  lex (js "sub 2  sum 1") = runs is_whitespace (js "sub 2  sum 1")
  /\ lex (js "  ") = [].
Proof.
  split.
  - apply (proj1 (proj2 (lex_maximal_runs (js "sub 2  sum 1")))).
    intros c Hc Hw. vm_compute in Hc.
    repeat (destruct Hc as [<- | Hc]; [first [reflexivity | discriminate Hw]|]).
    destruct Hc.
  - apply (proj2 (proj2 (lex_maximal_runs (js "  ")))). reflexivity.
Defined.

(** C8, as stated, fails on a tab: ["a<TAB>b"] holds two runs of
    non-white-space characters, and [lex] returns it as one token. *)
Lemma lex_keeps_tab :
  lex [97; TAB; 98]%N = [[97; TAB; 98]%N]
  /\ runs is_whitespace [97; TAB; 98]%N = [[97%N]; [98%N]].
Proof. split; reflexivity. Qed.

(** C9.  Lexing is idempotent: joining the tokens of [s] with single spaces
    and lexing again gives the tokens of [s]. *)
Theorem lex_idempotent :
  forall s : jsstring, lex (join (js " ") (lex s)) = lex s.
Proof. intros s. apply lex_join, lex_tokens. Qed.

(* ================================================================== *)
(** * The parser *)
(* ================================================================== *)

Section ParserFacts.

Variable tokens : list jsstring.

Lemma parseExpression_S (fuel count : nat) :
  parseExpression (S fuel) tokens count =
  if RegExp_digit_test (peek tokens count)
  then Some (parseNum tokens count)
  else parseOp fuel tokens count.
Proof. reflexivity. Qed.

Lemma parseOp_S (fuel count : nat) :
  parseOp (S fuel) tokens count =
  match parseOp_while fuel tokens (S count) [] with
  | Some (expression, count') =>
      Some (OperationParser (nth_error tokens count) expression, count')
  | None => None
  end.
Proof. reflexivity. Qed.

Lemma parseOp_while_S (fuel count : nat) (expression : list Parser) :
  parseOp_while (S fuel) tokens count expression =
  if ToBoolean_opt (peek tokens count) then
    match parseExpression fuel tokens count with
    | Some (e, count') => parseOp_while fuel tokens count' (expression ++ [e])
    | None => None
    end
  else Some (expression, count).
Proof. reflexivity. Qed.

(** A token that exists lies before the end. *)
Lemma peek_digit_lt (count : nat) :
  RegExp_digit_test (peek tokens count) = true -> count < List.length tokens.
Proof.
  unfold peek. intros H. apply nth_error_Some.
  destruct (nth_error tokens count); [discriminate | discriminate H].
Qed.

Lemma peek_truthy_lt (count : nat) :
  ToBoolean_opt (peek tokens count) = true -> count < List.length tokens.
Proof.
  unfold peek. intros H. apply nth_error_Some.
  destruct (nth_error tokens count); [discriminate | discriminate H].
Qed.

(** Termination: with the fuel stated, each of the three functions
    returns, and the cursor moves forward without passing the end (unless
    it started there). *)
Lemma parse_fuel_enough (fuel : nat) :
  (forall count,
      3 <= fuel -> 3 * (List.length tokens - count) <= fuel ->
      exists ast count',
        parseExpression fuel tokens count = Some (ast, count')
        /\ count < count'
        /\ (count < List.length tokens -> count' <= List.length tokens))
  /\ (forall count,
         3 * (List.length tokens - S count) + 2 <= fuel ->
         exists ast count',
           parseOp fuel tokens count = Some (ast, count')
           /\ count < count'
           /\ (count < List.length tokens -> count' <= List.length tokens))
  /\ (forall count expression,
         3 * (List.length tokens - count) + 1 <= fuel ->
         exists l count',
           parseOp_while fuel tokens count expression = Some (l, count')
           /\ count <= count'
           /\ (count <= List.length tokens -> count' <= List.length tokens)).
Proof.
  induction fuel as [|fuel (IHe & IHo & IHw)].
  - repeat split; intros; lia.
  - split; [|split].
    + intros count H3 H. rewrite parseExpression_S.
      destruct (RegExp_digit_test (peek tokens count)) eqn:T.
      * apply peek_digit_lt in T.
        eexists _, _. split; [reflexivity|]. simpl. lia.
      * apply IHo. lia.
    + intros count H. rewrite parseOp_S.
      destruct (IHw (S count) [] ltac:(lia)) as (l & c & -> & H1 & H2).
      eexists _, _. split; [reflexivity|]. lia.
    + intros count expression H. rewrite parseOp_while_S.
      destruct (ToBoolean_opt (peek tokens count)) eqn:T.
      * apply peek_truthy_lt in T.
        destruct (IHe count ltac:(lia) ltac:(lia)) as (e & c & -> & H1 & H2).
        destruct (IHw c (expression ++ [e]) ltac:(lia)) as (l & c' & -> & H3 & H4).
        eexists _, _. split; [reflexivity|]. lia.
      * eexists _, _. split; [reflexivity|]. lia.
Qed.

(** [parse] returns a tree for every token sequence. *)
Lemma parse_total : exists ast, parse tokens = Some ast.
Proof.
  unfold parse.
  destruct (proj1 (parse_fuel_enough (parse_fuel tokens)) 0) as (ast & c & -> & _);
    unfold parse_fuel; try lia.
  now exists ast.
Qed.

Abbreviation all_built := (Forall (fun a => Forall (built tokens) (nodes a))).

Lemma nodes_operation (val : option jsstring) (expression : list Parser) :
  built tokens (OperationParser val expression) ->
  all_built expression ->
  Forall (built tokens) (nodes (OperationParser val expression)).
Proof.
  intros B H. cbn [nodes]. constructor; [exact B|]. clear B.
  induction H as [|a l Ha _ IH]; cbn [flat_map]; [constructor|].
  apply Forall_app. now split.
Qed.

(** Every node of a tree the parser returns is [built] from the tokens. *)
Lemma parse_built (fuel : nat) :
  (forall count ast count',
      count < List.length tokens \/ tokens = [] ->
      parseExpression fuel tokens count = Some (ast, count') ->
      Forall (built tokens) (nodes ast))
  /\ (forall count ast count',
         count < List.length tokens \/ tokens = [] ->
         RegExp_digit_test (peek tokens count) = false ->
         parseOp fuel tokens count = Some (ast, count') ->
         Forall (built tokens) (nodes ast))
  /\ (forall count expression l count',
         all_built expression ->
         parseOp_while fuel tokens count expression = Some (l, count') ->
         all_built l
         /\ (exists more, l = expression ++ more
                          /\ (ToBoolean_opt (peek tokens count) = true -> more <> [])
                          /\ (ToBoolean_opt (peek tokens count) = false -> more = []))).
Proof.
  induction fuel as [|fuel (IHe & IHo & IHw)].
  - repeat split; intros; discriminate.
  - split; [|split].
    + intros count ast count' Hc. rewrite parseExpression_S.
      destruct (RegExp_digit_test (peek tokens count)) eqn:T.
      * intros [= <- <-]. simpl. constructor; [|constructor].
        unfold peek, RegExp_digit_test in T.
        destruct (nth_error tokens count) as [t|] eqn:E; [|discriminate T].
        exists count, t. auto.
      * now apply IHo.
    + intros count ast count' Hc T. rewrite parseOp_S.
      destruct (parseOp_while fuel tokens (S count) []) as [[l c]|] eqn:W;
        [|discriminate].
      intros [= <- <-].
      destruct (IHw _ _ _ _ (Forall_nil _) W) as (Hl & more & -> & Ht & Hf).
      apply nodes_operation; [|exact Hl].
      exists count. simpl. repeat split; auto.
    + intros count expression l count' Hacc. rewrite parseOp_while_S.
      destruct (ToBoolean_opt (peek tokens count)) eqn:T.
      * destruct (parseExpression fuel tokens count) as [[e c]|] eqn:E;
          [|discriminate].
        intros W.
        assert (He : Forall (built tokens) (nodes e)).
        { eapply IHe; [|exact E]. left. now apply peek_truthy_lt. }
        destruct (IHw _ _ _ _ (proj2 (Forall_app _ _ _) (conj Hacc (Forall_cons _ He (Forall_nil _)))) W)
          as (Hl & more & -> & _).
        split; [exact Hl|]. exists ([e] ++ more).
        rewrite app_assoc. repeat split; [discriminate | discriminate].
      * intros [= <- <-]. split; [exact Hacc|]. exists [].
        rewrite app_nil_r. repeat split; auto; discriminate.
Qed.

Lemma parse_nodes_built (ast : Parser) :
  parse tokens = Some ast -> Forall (built tokens) (nodes ast).
Proof.
  unfold parse.
  destruct (parseExpression (parse_fuel tokens) tokens 0) as [[a c]|] eqn:E;
    [|discriminate].
  intros [= <-]. eapply (proj1 (parse_built _)); [|exact E].
  destruct tokens; [now right | left; simpl; lia].
Qed.

End ParserFacts.

Section Numerals.

Lemma digit_value_decimal (c : N) :
  is_digit c = true -> digit_value 10 c = Some (c - 48)%N.
Proof.
  unfold is_digit, digit_value. intros H. rewrite H.
  apply andb_prop in H. destruct H as [H1 H2].
  apply N.leb_le in H1, H2.
  destruct (N.ltb_spec (c - 48) 10); [reflexivity | lia].
Qed.

Lemma digits_prefix_decimal (t : jsstring) (a : N) :
  forallb is_digit t = true ->
  digits_prefix 10 t (Some a) = Some (fold_left (fun a c => a * 10 + (c - 48))%N t a).
Proof.
  revert a. induction t as [|c r IH]; simpl; intros a H; [reflexivity|].
  apply andb_prop in H. destruct H as [Hc Hr].
  rewrite (digit_value_decimal c Hc). now apply IH.
Qed.

Lemma digit_not_whitespace (c : N) : is_digit c = true -> is_whitespace c = false.
Proof.
  unfold is_digit, is_whitespace. intros H.
  apply andb_prop in H. destruct H as [H1 H2]. apply N.leb_le in H1, H2.
  repeat (apply orb_false_intro);
    try (apply N.eqb_neq; lia).
  apply andb_false_intro1. apply N.leb_gt. lia.
Qed.

Lemma read_sign_digit (c : N) (r : jsstring) :
  is_digit c = true -> read_sign (c :: r) = (false, c :: r).
Proof.
  unfold is_digit, read_sign. intros H.
  apply andb_prop in H. destruct H as [H1 H2]. apply N.leb_le in H1, H2.
  destruct (N.eqb_spec c 45); [lia|]. destruct (N.eqb_spec c 43); [lia|].
  reflexivity.
Qed.

Lemma read_prefix_digits (s : jsstring) :
  forallb is_digit s = true -> read_prefix s = (10%N, s).
Proof.
  destruct s as [|c [|x r]]; try reflexivity. simpl. intros H.
  apply andb_prop in H. destruct H as [_ H].
  apply andb_prop in H. destruct H as [Hx _].
  unfold is_digit in Hx. apply andb_prop in Hx. destruct Hx as [H1 H2].
  apply N.leb_le in H1, H2.
  destruct (N.eqb_spec x 120); [lia|]. destruct (N.eqb_spec x 88); [lia|].
  now rewrite andb_false_r.
Qed.

(** [parseInt] of a token that is all decimal digits is the number for the
    integer the digits denote. *)
Lemma parseInt_all_digits (t : jsstring) :
  all_digits t = true -> parseInt t = Number_of_Z (Z.of_N (decimal_value t)).
Proof.
  unfold all_digits. intros H. apply andb_prop in H. destruct H as [Hn Hd].
  destruct t as [|c r]; [discriminate|]. clear Hn.
  pose proof Hd as Hd'. simpl in Hd'. apply andb_prop in Hd'. destruct Hd' as [Hc Hr].
  unfold parseInt.
  rewrite trimStart_id by (simpl; now rewrite (digit_not_whitespace c Hc)).
  rewrite (@read_sign_digit c r Hc), (@read_prefix_digits (c :: r) Hd).
  simpl digits_prefix. rewrite (digit_value_decimal c Hc).
  now rewrite (digits_prefix_decimal r _ Hr).
Qed.

End Numerals.

Section SmallIntegers.

Local Open Scope Z_scope.

Lemma digits2_size (m : positive) : digits2_pos m = Pos.size m.
Proof. induction m; simpl; congruence. Qed.

Lemma digits_iter (m d : positive) :
  digits2_pos (Pos.iter xO m d) = (digits2_pos m + d)%positive.
Proof.
  induction d using Pos.peano_ind.
  - simpl. lia.
  - rewrite Pos.iter_succ. simpl. rewrite IHd. lia.
Qed.

Lemma value_iter (m d : positive) :
  Zpos (Pos.iter xO m d) = Zpos m * 2 ^ Zpos d.
Proof.
  induction d using Pos.peano_ind.
  - simpl. lia.
  - rewrite Pos.iter_succ, Pos2Z.inj_xO, IHd, Pos2Z.inj_succ, Z.pow_succ_r by lia. lia.
Qed.

Lemma digits_bound (m : positive) :
  Zpos m < 2 ^ 53 -> Zpos (digits2_pos m) <= 53.
Proof.
  intros H. rewrite digits2_size.
  pose proof (Pos.size_le m) as L.
  assert (L' : 2 ^ Zpos (Pos.size m) <= 2 * Zpos m).
  { apply Pos2Z.pos_le_pos in L. rewrite Pos2Z.inj_pow in L. exact L. }
  destruct (Z.le_gt_cases (Zpos (Pos.size m)) 53) as [|G]; [assumption|].
  assert (2 ^ 54 <= 2 ^ Zpos (Pos.size m)) by (apply Z.pow_le_mono_r; lia).
  change (2 ^ 54) with (2 * 2 ^ 53) in *. lia.
Qed.

(** Rounding an integer below [2^53] to binary64 loses nothing: the
    mantissa is the integer shifted to 53 bits. *)
Lemma normalize_small (m : positive) :
  Zpos m < 2 ^ 53 ->
  exists mz ez,
    binary_normalize prec emax (Zpos m) 0 false = S754_finite false mz ez
    /\ valid_binary (S754_finite false mz ez) = true
    /\ ez <= 0 /\ Zpos mz = Zpos m * 2 ^ (- ez).
Proof.
  intros H. pose proof (@digits_bound m H) as D.
  assert (D1 : 1 <= Zpos (digits2_pos m)) by lia.
  unfold binary_normalize, binary_round.
  set (dg := Zpos (digits2_pos m)) in *.
  assert (F : fexp prec emax (dg + 0) = dg - 53).
  { unfold fexp, emin, prec, emax. lia. }
  rewrite F.
  assert (S : exists mz, shl_align m 0 (dg - 53) = (mz, dg - 53)
                         /\ Zpos (digits2_pos mz) = 53
                         /\ Zpos mz = Zpos m * 2 ^ (- (dg - 53))).
  { unfold shl_align. rewrite Z.sub_0_r.
    destruct (dg - 53) as [|p|p] eqn:E; [|lia|].
    - exists m. repeat split; [unfold dg in E; lia | simpl; lia].
    - exists (Pos.iter xO m p). repeat split.
      + rewrite digits_iter. unfold dg in E. lia.
      + rewrite value_iter. reflexivity. }
  destruct S as (mz & -> & Dz & Vz).
  exists mz, (dg - 53).
  assert (F2 : fexp prec emax (Zpos (digits2_pos mz) + (dg - 53)) = dg - 53).
  { rewrite Dz. unfold fexp, emin, prec, emax. lia. }
  repeat split; try lia.
  - unfold binary_round_aux, shr_fexp. cbn [Zdigits2 shr_record_of_loc].
    rewrite F2, Z.sub_diag. cbn [shr shr_m loc_of_shr_record round_nearest_even].
    cbn [Zdigits2 shr_record_of_loc]. rewrite F2, Z.sub_diag. cbn [shr shr_m].
    destruct (Z.leb_spec (dg - 53) (emax - prec)); [reflexivity|].
    unfold emax, prec in *. lia.
  - cbn [valid_binary]. unfold bounded, canonical_mantissa. rewrite F2, Z.eqb_refl.
    apply Z.leb_le. unfold emax, prec. lia.
Qed.

(** The Number for an integer below [2^53] is that integer. *)
Lemma integer_of_small (z : Z) :
  0 <= z < 2 ^ 53 -> integer_of (Number_of_Z z) = Some z.
Proof.
  intros [H0 H]. unfold Number_of_Z, integer_of.
  destruct z as [|m|m]; [reflexivity| |lia].
  destruct (@normalize_small m H) as (mz & ez & -> & V & Hez & Vz).
  rewrite (Prim2SF_SF2Prim _ V).
  destruct (Z.leb_spec 0 ez).
  - assert (ez = 0) by lia. subst ez. change (2 ^ (- 0)) with 1 in Vz.
    rewrite Z.pow_0_r. f_equal; lia.
  - rewrite Vz, Z_mod_mult, Z.eqb_refl, Z_div_mult
      by (apply Z.lt_gt, Z.pow_pos_nonneg; lia).
    f_equal; lia.
Qed.

End SmallIntegers.

Lemma nth_error_last (A : Type) (l : list A) (d : A) :
  l <> [] -> nth_error l (List.length l - 1) = Some (last l d).
Proof.
  induction l as [|x r IH]; [congruence|]. intros _.
  destruct r as [|y r]; [reflexivity|].
  specialize (IH ltac:(discriminate)).
  change (last (x :: y :: r) d) with (last (y :: r) d). rewrite <- IH.
  simpl. now rewrite Nat.sub_0_r.
Qed.

(** C3 (as amended).  [parse] signals no failure.  For every token
    sequence it returns a tree.  Only on the empty sequence does the cursor
    pass the end: [consume] then reads [undefined], and the result is an
    operation node whose operator is [undefined] and whose operand list is
    empty. *)
Theorem parse_never_fails :
  (forall tokens, exists ast, parse tokens = Some ast)
  /\ parse [] = Some (OperationParser None [])
  /\ (forall tokens ast count,
         tokens <> [] ->
         parseExpression (parse_fuel tokens) tokens 0 = Some (ast, count) ->
         count <= List.length tokens).
Proof.
  split; [exact parse_total | split; [reflexivity|]].
  intros tokens ast count Hne E.
  destruct (proj1 (parse_fuel_enough tokens (parse_fuel tokens)) 0)
    as (a & c & E' & _ & H); unfold parse_fuel; try lia.
  rewrite E in E'. injection E' as <- <-.
  apply H. destruct tokens; [congruence | simpl; lia].
Qed.

(** C3, an input the theorem applies to: the tokens of ["sum 1 2"]. *)
Lemma parse_never_fails_witness :
  3 <= List.length (lex (js "sum 1 2")).
Proof.
  apply (proj2 (proj2 parse_never_fails) (lex (js "sum 1 2"))
           (OperationParser (Some (js "sum"))
              [NumberParser 1%float; NumberParser 2%float]) 3).
  - vm_compute. discriminate.
  - vm_compute. reflexivity.
Defined.

(** C3, as stated, fails on the empty token sequence: [parse] returns a
    node and reports nothing. *)
Lemma parse_empty_returns_node :
  parse (lex []) = Some (OperationParser None []).
Proof. reflexivity. Qed.

(** C4 (as amended).  [parseExpression] delegates to [parseNum] exactly when
    the next token exists and contains a decimal digit somewhere (the
    pattern is [\\d], not anchored), and to [parseOp] otherwise.  So every
    number node of a returned tree carries [parseInt] of a token that
    contains a digit.  For a token that is all decimal digits that is the
    Number for the integer the token denotes, that is the integer rounded to
    binary64: the integer itself when it is below [2^53], and a rounded
    value beyond ([9007199254740992] for the token [9007199254740993],
    [Infinity] for a 1 followed by 309 zeros).  For another token it is what [parseInt] makes of it, [NaN] included. *)
Theorem parseExpression_delegates :
  (forall fuel tokens count,
      parseExpression (S fuel) tokens count =
      match peek tokens count with
      | Some t => if existsb is_digit t then Some (parseNum tokens count)
                  else parseOp fuel tokens count
      | None => parseOp fuel tokens count
      end)
  /\ (forall tokens ast val,
         parse tokens = Some ast ->
         In (NumberParser val) (nodes ast) ->
         exists t, In t tokens /\ existsb is_digit t = true /\ val = parseInt t)
  /\ (forall t, all_digits t = true ->
                parseInt t = Number_of_Z (Z.of_N (decimal_value t)))
  /\ (forall t, all_digits t = true ->
                (decimal_value t < 2 ^ 53)%N ->
                integer_of (parseInt t) = Some (Z.of_N (decimal_value t)))
  /\ (all_digits (js "9007199254740993") = true
      /\ integer_of (parseInt (js "9007199254740993")) = Some 9007199254740992%Z)
  /\ (all_digits (js "1" ++ repeat 48%N 309) = true
      /\ parseInt (js "1" ++ repeat 48%N 309) = infinity).
Proof.
  split; [|split; [|split; [|split; [|split]]]]; [| | | |split; vm_compute; reflexivity|].
  - intros fuel tokens count. rewrite parseExpression_S.
    unfold RegExp_digit_test. now destruct (peek tokens count).
  - intros tokens ast val P H.
    pose proof (parse_nodes_built tokens P) as B.
    rewrite Forall_forall in B. destruct (B _ H) as (i & t & E & D & V).
    exists t. split; [now apply nth_error_In with i | auto].
  - exact parseInt_all_digits.
  - intros t A H. rewrite (parseInt_all_digits t A).
    apply integer_of_small. split; [apply N2Z.is_nonneg|].
    change (2 ^ 53)%Z with (Z.of_N (2 ^ 53)). now apply N2Z.inj_lt.
  - split; vm_compute; reflexivity.
Qed.

(** C4, an input the theorem applies to: the tokens of ["sum 12 7"]. *)
Lemma parseExpression_delegates_witness :
  (exists t, In t (lex (js "sum 12 7")) /\ existsb is_digit t = true
             /\ 12%float = parseInt t)
  /\ parseInt (js "12") = Number_of_Z (Z.of_N (decimal_value (js "12")))
  /\ integer_of (parseInt (js "12")) = Some (Z.of_N (decimal_value (js "12"))).
Proof.
  split; [|split].
  - apply (proj1 (proj2 parseExpression_delegates) (lex (js "sum 12 7"))
             (OperationParser (Some (js "sum"))
                [NumberParser 12%float; NumberParser 7%float]) 12%float).
    + vm_compute. reflexivity.
    + simpl. right. left. reflexivity.
  - apply (proj1 (proj2 (proj2 parseExpression_delegates)) (js "12")). reflexivity.
  - apply (proj1 (proj2 (proj2 (proj2 parseExpression_delegates))) (js "12"));
      reflexivity.
Defined.

(** C4, as stated, fails on a token that holds a digit and is not all
    digits: ["x1"] goes to [parseNum] and the node carries [NaN]; ["1x"]
    goes to [parseNum] as well. *)
Lemma parse_digit_anywhere :
  all_digits (js "x1") = false
  /\ parse [js "x1"] = Some (NumberParser nan)
  /\ all_digits (js "1x") = false
  /\ parse [js "1x"] = Some (NumberParser 1%float).
Proof. repeat split; vm_compute; reflexivity. Qed.

(** An operation node of the tree has no operand exactly when no token, or
    the empty token, follows its operator. *)
Lemma parse_operands (tokens : list jsstring) (ast : Parser)
    (val : option jsstring) (expression : list Parser) :
  parse tokens = Some ast ->
  In (OperationParser val expression) (nodes ast) ->
  exists i, (i < List.length tokens \/ tokens = [])
            /\ val = nth_error tokens i
            /\ RegExp_digit_test val = false
            /\ (expression = [] <-> ToBoolean_opt (nth_error tokens (S i)) = false).
Proof.
  intros P H. pose proof (parse_nodes_built tokens P) as B.
  rewrite Forall_forall in B.
  destruct (B _ H) as (i & Hi & V & T & Hyes & Hno).
  exists i. repeat split; auto.
  intros ->. destruct (ToBoolean_opt (nth_error tokens (S i))); [|reflexivity].
  now destruct (Hyes eq_refl).
Qed.

(* ================================================================== *)
(** * Trees and operators *)
(* ================================================================== *)

Section Trees.

Variable P : Parser -> Prop.
Hypothesis P_number : forall val, P (NumberParser val).
Hypothesis P_operation :
  forall val expression, Forall P expression -> P (OperationParser val expression).

(** Induction on a tree, with the property for all operands at hand. *)
Lemma Parser_nested_ind : forall ast, P ast.
Proof.
  fix IH 1. intros [val | val expression].
  - apply P_number.
  - apply P_operation. induction expression as [|e r IHr]; constructor.
    + apply IH.
    + exact IHr.
Qed.

End Trees.

Section Operators.

Variables (A : Type) (sum sub div mul : A).

(** [operationMap[val]] is an own property exactly for the four operators. *)
Lemma get_recognized (val : option jsstring) (op : OperatorKind) :
  operator_of val = Some op ->
  get sum sub div mul (ToString_opt val) =
  Own (match op with Sum => sum | Sub => sub | Div => div | Mul => mul end).
Proof.
  destruct val as [s|]; [|discriminate]. unfold operator_of, get, ToString_opt.
  destruct (jsstring_eqb s (js "sum")); [now intros [= <-]|].
  destruct (jsstring_eqb s (js "sub")); [now intros [= <-]|].
  destruct (jsstring_eqb s (js "div")); [now intros [= <-]|].
  destruct (jsstring_eqb s (js "mul")); [now intros [= <-]|].
  discriminate.
Qed.

(** Any other key that [Object.prototype] does not hold finds nothing. *)
Lemma get_unrecognized (val : option jsstring) :
  operator_of val = None ->
  in_Object_prototype (ToString_opt val) = false ->
  get sum sub div mul (ToString_opt val) = Undefined.
Proof.
  destruct val as [s|]; [|reflexivity]. unfold operator_of, get, ToString_opt.
  destruct (jsstring_eqb s (js "sum")); [discriminate|].
  destruct (jsstring_eqb s (js "sub")); [discriminate|].
  destruct (jsstring_eqb s (js "div")); [discriminate|].
  destruct (jsstring_eqb s (js "mul")); [discriminate|].
  now intros _ ->.
Qed.

End Operators.

Lemma sequence_length (A : Type) (l : list (option A)) (xs : list A) :
  sequence l = Some xs -> List.length xs = List.length l.
Proof.
  revert xs. induction l as [|[x|] r IH]; simpl; intros xs; try discriminate.
  - now intros [= <-].
  - destruct (sequence r) as [ys|]; [|discriminate].
    intros [= <-]. simpl. f_equal. now apply IH.
Qed.

(* ================================================================== *)
(** * The evaluator *)
(* ================================================================== *)

Section Evaluator.

Lemma evaluate_operation (val : option jsstring) (expression : list Parser) :
  evaluate (OperationParser val expression) =
  match Array_map evaluate expression with
  | Normal args =>
      match evaluate_operationMap (ToString_opt val) with
      | Own f => f args
      | Undefined => Throw NotAFunction
      | Inherited => Prototype
      end
  | Throw e => Throw e
  | Prototype => Prototype
  end.
Proof. reflexivity. Qed.

Lemma folded_operation (val : option jsstring) (expression : list Parser) :
  folded (OperationParser val expression) =
  match sequence (map folded expression), operator_of val with
  | Some vs, Some Sum => Some (fold_left PrimFloat.add vs 0%float)
  | Some vs, Some Mul => Some (fold_left PrimFloat.mul vs 1%float)
  | Some (v :: rest), Some Sub => Some (fold_left PrimFloat.sub rest v)
  | Some (v :: rest), Some Div => Some (fold_left PrimFloat.div rest v)
  | _, _ => None
  end.
Proof. reflexivity. Qed.

Lemma well_formed_operation (val : option jsstring) (expression : list Parser) :
  well_formed (OperationParser val expression) =
  match operator_of val with
  | Some Sub | Some Div =>
      negb (Nat.eqb (List.length expression) 0) && forallb well_formed expression
  | Some Sum | Some Mul => forallb well_formed expression
  | None => false
  end.
Proof. reflexivity. Qed.

(** The evaluation of a [div] node whose operands evaluate to numbers. *)
Lemma evaluate_div (expression : list Parser) (v : number) (rest : list number) :
  Array_map evaluate expression = Normal (v :: rest) ->
  evaluate (OperationParser (Some (js "div")) expression) =
  Normal (fold_left PrimFloat.div rest v).
Proof. intros H. rewrite evaluate_operation, H. reflexivity. Qed.

Lemma Array_map_folded (expression : list Parser) :
  Forall (fun e => forall v, folded e = Some v -> evaluate e = Normal v) expression ->
  forall vs, sequence (map folded expression) = Some vs ->
             Array_map evaluate expression = Normal vs.
Proof.
  induction 1 as [|e r He _ IH]; simpl; intros vs.
  - now intros [= <-].
  - destruct (folded e) as [x|]; [|discriminate].
    destruct (sequence (map folded r)) as [xs|]; [|discriminate].
    intros [= <-]. now rewrite (He x eq_refl), (IH xs eq_refl).
Qed.

(** Where the specification gives a value, [evaluate] returns it. *)
Lemma folded_evaluate :
  forall ast v, folded ast = Some v -> evaluate ast = Normal v.
Proof.
  induction ast as [val | val expression IH] using Parser_nested_ind; intros v.
  - simpl. now intros [= <-].
  - rewrite folded_operation, evaluate_operation.
    destruct (sequence (map folded expression)) as [vs|] eqn:S; [|discriminate].
    rewrite (Array_map_folded IH S).
    destruct (operator_of val) as [op|] eqn:O; [|now destruct vs].
    unfold evaluate_operationMap. rewrite (get_recognized _ _ _ _ _ O).
    destruct op; simpl; destruct vs; intros E;
      first [discriminate E | injection E as <-; reflexivity].
Qed.

(** The specification gives a value to every well-formed tree. *)
Lemma well_formed_folded :
  forall ast, well_formed ast = true -> exists v, folded ast = Some v.
Proof.
  induction ast as [val | val expression IH] using Parser_nested_ind.
  - intros _. now exists val.
  - rewrite well_formed_operation, folded_operation.
    destruct (operator_of val) as [op|]; [|discriminate].
    intros W.
    assert (Hall : forallb well_formed expression = true).
    { destruct op; first [exact W | apply andb_prop in W; tauto]. }
    assert (S : exists vs, sequence (map folded expression) = Some vs).
    { clear W. revert Hall.
      induction IH as [|e r He _ IHr]; intros Hall; [now exists []|].
      simpl in Hall. apply andb_prop in Hall. destruct Hall as [We Wr].
      destruct (He We) as [x Ex]. destruct (IHr Wr) as [xs Exs].
      exists (x :: xs). simpl. now rewrite Ex, Exs. }
    destruct S as [vs S]. rewrite S.
    pose proof (sequence_length _ S) as L. rewrite length_map in L.
    destruct vs as [|x xs]; destruct op; try (eexists; reflexivity);
      apply andb_prop in W; destruct W as [W _];
      simpl in L; rewrite <- L in W; discriminate.
Qed.

End Evaluator.

(** C6.  For every tree whose operation nodes carry one of [sum], [sub],
    [div], [mul], whose [sub] and [div] nodes have at least one operand and
    whose [div] nodes have no zero-valued operand after the first,
    [evaluate] returns the value the specification describes: the stored
    value of a number node; the left fold from 0 with addition for [sum],
    from 1 with multiplication for [mul]; for [sub] and [div] the left fold
    that starts from the first operand's value and subtracts (divides by)
    each later one, left to right. *)
Theorem evaluate_folds :
  forall ast,
    well_formed ast = true ->
    zero_free ast = true ->
    exists v, folded ast = Some v /\ evaluate ast = Normal v.
Proof.
  intros ast W _. destruct (well_formed_folded ast W) as [v F].
  exists v. split; [exact F | now apply folded_evaluate].
Qed.

(** C6, an input the theorem applies to: the tree of ["sub 2 sum 1 3 4"],
    whose value is [2 - (0 + 1 + 3 + 4) = -6]. *)
Lemma evaluate_folds_witness :
  exists v,
    folded (OperationParser (Some (js "sub"))
              [NumberParser 2%float;
               OperationParser (Some (js "sum"))
                 [NumberParser 1%float; NumberParser 3%float; NumberParser 4%float]])
    = Some v
    /\ evaluate (OperationParser (Some (js "sub"))
                   [NumberParser 2%float;
                    OperationParser (Some (js "sum"))
                      [NumberParser 1%float; NumberParser 3%float; NumberParser 4%float]])
       = Normal v.
Proof.
  apply (evaluate_folds
           (OperationParser (Some (js "sub"))
              [NumberParser 2%float;
               OperationParser (Some (js "sum"))
                 [NumberParser 1%float; NumberParser 3%float; NumberParser 4%float]]));
    vm_compute; reflexivity.
Defined.

(** Division by a zero never raises: the quotient is an infinity or [NaN]. *)
Lemma div_by_zero (x y : number) :
  is_zero y = true ->
  (x / y = infinity \/ x / y = neg_infinity \/ x / y = nan)%float.
Proof.
  unfold is_zero. destruct (Prim2SF y) as [sy| | |] eqn:Hy; try discriminate.
  intros _. rewrite <- (SF2Prim_Prim2SF (x / y)), div_spec, Hy.
  destruct (Prim2SF x) as [sx|sx| |sx mx ex]; destruct sy; try destruct sx;
    simpl; auto.
Qed.

(** C1 (as amended).  A [div] node whose operands evaluate to numbers
    signals no failure when a value after the first is zero: [evaluate]
    returns the left fold of the values with IEEE 754 division.  With two
    operands and a zero divisor that number is [Infinity], [-Infinity] or
    [NaN]; for ["div 4 0"] it is [Infinity]. *)
Theorem evaluate_div_zero :
  (forall expression v rest,
      Array_map evaluate expression = Normal (v :: rest) ->
      existsb is_zero rest = true ->
      evaluate (OperationParser (Some (js "div")) expression) =
      Normal (fold_left PrimFloat.div rest v))
  /\ (forall a b x y,
         evaluate a = Normal x -> evaluate b = Normal y -> is_zero y = true ->
         evaluate (OperationParser (Some (js "div")) [a; b]) = Normal (x / y)%float
         /\ (x / y = infinity \/ x / y = neg_infinity \/ x / y = nan)%float)
  /\ option_map evaluate (parse (lex (js "div 4 0"))) = Some (Normal infinity).
Proof.
  split; [|split].
  - intros expression v rest H _. now apply evaluate_div.
  - intros a b x y Ha Hb Hy. split; [|now apply div_by_zero].
    apply (@evaluate_div [a; b] x [y]). simpl. now rewrite Ha, Hb.
  - vm_compute. reflexivity.
Qed.

(** C1, an input the theorem applies to: the tree of ["div 4 0"]. *)
Lemma evaluate_div_zero_witness :
  evaluate (OperationParser (Some (js "div")) [NumberParser 4%float; NumberParser 0%float])
  = Normal (fold_left PrimFloat.div [0%float] 4%float).
Proof.
  apply (proj1 evaluate_div_zero [NumberParser 4%float; NumberParser 0%float]
           4%float [0%float]); reflexivity.
Defined.

(** C1, as stated, fails on ["div 4 0"]: [evaluate] returns the number
    [Infinity] and raises nothing. *)
Lemma evaluate_div_4_0 :
  option_map evaluate (parse (lex (js "div 4 0"))) = Some (Normal infinity).
Proof. vm_compute. reflexivity. Qed.

(** C10.  A [div] node with two or more operands divides as IEEE 754
    binary64 does, without truncating to an integer: the result is the left
    fold of the operands' values with that division, the quotient of two
    values is the correctly rounded quotient that [SFdiv] specifies, and the
    tree of ["div 3 2"], built from integer literals only, evaluates to
    [1.5], which is no integer (and [1.5 * 2] is [3] again). *)
Theorem evaluate_div_not_truncated :
  (forall expression v w rest,
      Array_map evaluate expression = Normal (v :: w :: rest) ->
      evaluate (OperationParser (Some (js "div")) expression) =
      Normal (fold_left PrimFloat.div (w :: rest) v))
  /\ (forall a b x y,
         evaluate a = Normal x -> evaluate b = Normal y ->
         exists q,
           evaluate (OperationParser (Some (js "div")) [a; b]) = Normal q
           /\ Prim2SF q = SFdiv prec emax (Prim2SF x) (Prim2SF y))
  /\ (parse (lex (js "div 3 2")) =
      Some (OperationParser (Some (js "div")) [NumberParser 3%float; NumberParser 2%float])
      /\ is_integer 3%float = true /\ is_integer 2%float = true
      /\ evaluate (OperationParser (Some (js "div"))
                     [NumberParser 3%float; NumberParser 2%float])
         = Normal 1.5%float
      /\ is_integer 1.5%float = false
      /\ (1.5 * 2 = 3)%float).
Proof.
  split; [|split].
  - intros expression v w rest H. now apply evaluate_div.
  - intros a b x y Ha Hb. exists (x / y)%float. split; [|apply div_spec].
    apply (@evaluate_div [a; b] x [y]). simpl. now rewrite Ha, Hb.
  - repeat split; vm_compute; reflexivity.
Qed.

(** C10, an input the theorem applies to: the tree of ["div 3 2 2"]. *)
Lemma evaluate_div_not_truncated_witness :
  evaluate (OperationParser (Some (js "div"))
              [NumberParser 3%float; NumberParser 2%float; NumberParser 2%float])
  = Normal (fold_left PrimFloat.div [2%float; 2%float] 3%float).
Proof.
  apply (proj1 evaluate_div_not_truncated
           [NumberParser 3%float; NumberParser 2%float; NumberParser 2%float]
           3%float 2%float [2%float]).
  reflexivity.
Defined.

(* ================================================================== *)
(** * The code generator *)
(* ================================================================== *)

Section Compiler.

Lemma compile_operation (val : option jsstring) (expression : list Parser) :
  compile (OperationParser val expression) =
  match Array_map compile expression with
  | Normal parts =>
      match compile_operationMap (ToString_opt val) with
      | Own symbol =>
          Normal (VStr (js "(" ++ join (js " " ++ symbol ++ js " ") (map ToString parts)
                        ++ js ")"))
      | Undefined =>
          Normal (VStr (js "(" ++ join (js " undefined ") (map ToString parts) ++ js ")"))
      | Inherited => Prototype
      end
  | Throw e => Throw e
  | Prototype => Prototype
  end.
Proof. reflexivity. Qed.

Lemma infix_operation (val : option jsstring) (expression : list Parser) :
  infix (OperationParser val expression) =
  match sequence (map infix expression), operator_of val with
  | Some parts, Some op =>
      Some (js "(" ++ join (js " " ++ symbol op ++ js " ") parts ++ js ")")
  | _, _ => None
  end.
Proof. reflexivity. Qed.

Lemma recognized_operation (val : option jsstring) (expression : list Parser) :
  recognized (OperationParser val expression) =
  match operator_of val with
  | Some _ => forallb recognized expression
  | None => false
  end.
Proof. reflexivity. Qed.

Lemma compile_symbol (val : option jsstring) (op : OperatorKind) :
  operator_of val = Some op ->
  compile_operationMap (ToString_opt val) = Own (symbol op).
Proof.
  intros H. unfold compile_operationMap. rewrite (get_recognized _ _ _ _ _ H).
  now destruct op.
Qed.

(** [compile] raises nothing, whatever the tree. *)
Lemma compile_no_throw : forall ast e, compile ast <> Throw e.
Proof.
  induction ast as [val | val expression IH] using Parser_nested_ind; intros e.
  - discriminate.
  - rewrite compile_operation.
    assert (A : Array_map compile expression <> Throw e).
    { induction IH as [|a r Ha _ IHr]; simpl; [discriminate|].
      destruct (compile a) as [x|e'|] eqn:Ea; try discriminate.
      - destruct (Array_map compile r) as [xs|e'|]; try discriminate.
        intros [= ->]. now apply IHr.
      - intros [= ->]. now apply (Ha e). }
    destruct (Array_map compile expression) as [parts|e'|]; try discriminate.
    + destruct (compile_operationMap (ToString_opt val)); discriminate.
    + intros [= ->]. now apply A.
Qed.

(** On a tree with the four operators only, [compile] returns the number of
    a number node unchanged and, for an operation node, the string that the
    specification describes; joined into a string, its result is the
    specification's text in both cases. *)
Lemma compile_recognized :
  forall ast,
    recognized ast = true ->
    exists v, compile ast = Normal v
              /\ infix ast = Some (ToString v)
              /\ match ast with
                 | NumberParser val => v = VNum val
                 | OperationParser _ _ => exists s, v = VStr s
                 end.
Proof.
  induction ast as [val | val expression IH] using Parser_nested_ind.
  - intros _. exists (VNum val). repeat split.
  - rewrite recognized_operation, compile_operation, infix_operation.
    destruct (operator_of val) as [op|] eqn:O; [|discriminate].
    intros R.
    assert (A : exists parts, Array_map compile expression = Normal parts
                              /\ sequence (map infix expression) = Some (map ToString parts)).
    { revert R. induction IH as [|a r Ha _ IHr]; intros R; [now exists []|].
      simpl in R. apply andb_prop in R. destruct R as [Ra Rr].
      destruct (Ha Ra) as (x & Ex & Ix & _). destruct (IHr Rr) as (xs & Exs & Ixs).
      exists (x :: xs). simpl. now rewrite Ex, Exs, Ix, Ixs. }
    destruct A as (parts & -> & ->). rewrite (compile_symbol _ O).
    eexists. repeat split. eexists. reflexivity.
Qed.

End Compiler.

(** C2 (as amended).  [compile] signals no failure for an operator that is
    none of [sum], [sub], [div], [mul]; it raises nothing on any tree.  When
    such an operator names no member of [Object.prototype] and the operands
    compile, the result is a string: the operands joined with
    [" undefined "], in parentheses. *)
Theorem compile_unknown_operator :
  (forall ast e, compile ast <> Throw e)
  /\ (forall val expression parts,
         operator_of val = None ->
         in_Object_prototype (ToString_opt val) = false ->
         Array_map compile expression = Normal parts ->
         compile (OperationParser val expression) =
         Normal (VStr (js "(" ++ join (js " undefined ") (map ToString parts) ++ js ")"))).
Proof.
  split; [exact compile_no_throw|].
  intros val expression parts O I A. rewrite compile_operation, A.
  unfold compile_operationMap. now rewrite (get_unrecognized _ _ _ _ _ O I).
Qed.

(** C2, an input the theorem applies to: the tree of ["pow 2 3"]. *)
Lemma compile_unknown_operator_witness :
  compile (OperationParser (Some (js "pow")) [NumberParser 2%float; NumberParser 3%float])
  = Normal (VStr (js "(" ++ join (js " undefined ")
                              (map ToString [VNum 2%float; VNum 3%float]) ++ js ")")).
Proof.
  apply (proj2 compile_unknown_operator (Some (js "pow"))
           [NumberParser 2%float; NumberParser 3%float]
           [VNum 2%float; VNum 3%float]); reflexivity.
Defined.

(** C2, as stated, fails on ["pow 2 3"]: [compile] returns a string. *)
Lemma compile_pow_2_3 :
  option_map compile (parse (lex (js "pow 2 3")))
  = Some (Normal (VStr (js "(2 undefined 3)"))).
Proof. vm_compute. reflexivity. Qed.

(** C7 (as amended).  On a tree whose operation nodes carry one of the four
    operators, [compile] returns: for a number node the number itself, not
    a string (its decimal string form is what [join] makes of it once the
    node is an operand); for an operation node the string of the operands'
    texts, left to right, joined with the operator's symbol between single
    spaces, in parentheses.  One operand gives the operand's text in
    parentheses, without a symbol; no operand gives ["()"]. *)
Theorem compile_infix :
  (forall val, compile (NumberParser val) = Normal (VNum val)
               /\ ToString (VNum val) = Number_toString val)
  /\ (forall val expression,
         recognized (OperationParser val expression) = true ->
         exists s, infix (OperationParser val expression) = Some s
                   /\ compile (OperationParser val expression) = Normal (VStr s))
  /\ (forall val op e s,
         operator_of val = Some op -> recognized e = true -> infix e = Some s ->
         compile (OperationParser val [e]) = Normal (VStr (js "(" ++ s ++ js ")")))
  /\ (forall val op,
         operator_of val = Some op ->
         compile (OperationParser val []) = Normal (VStr (js "()"))).
Proof.
  split; [|split; [|split]].
  - intros val. split; reflexivity.
  - intros val expression R.
    destruct (compile_recognized _ R) as (v & C & I & s & ->).
    exists s. now split.
  - intros val op e s O R I.
    destruct (compile_recognized e R) as (v & C & I' & _).
    rewrite I in I'. injection I' as ->.
    rewrite compile_operation. simpl. rewrite C, (compile_symbol _ O). reflexivity.
  - intros val op O. rewrite compile_operation. simpl.
    now rewrite (compile_symbol _ O).
Qed.

(** C7, an input the theorem applies to: the tree of ["sub 2 sum 1 3 4"],
    whose text is ["(2 - (1 + 3 + 4))"]. *)
Lemma compile_infix_witness :
  exists s,
    infix (OperationParser (Some (js "sub"))
             [NumberParser 2%float;
              OperationParser (Some (js "sum"))
                [NumberParser 1%float; NumberParser 3%float; NumberParser 4%float]])
    = Some s
    /\ compile (OperationParser (Some (js "sub"))
                  [NumberParser 2%float;
                   OperationParser (Some (js "sum"))
                     [NumberParser 1%float; NumberParser 3%float; NumberParser 4%float]])
       = Normal (VStr s).
Proof.
  apply (proj1 (proj2 compile_infix) (Some (js "sub"))
           [NumberParser 2%float;
            OperationParser (Some (js "sum"))
              [NumberParser 1%float; NumberParser 3%float; NumberParser 4%float]]).
  reflexivity.
Defined.

(** C7, as stated, fails on a tree that is one number: for ["5"],
    [compile] returns the number 5, whose decimal string form is ["5"]. *)
Lemma compile_number_is_number :
  option_map compile (parse (lex (js "5"))) = Some (Normal (VNum 5%float))
  /\ Number_toString 5%float = js "5".
Proof. split; vm_compute; reflexivity. Qed.

(* ================================================================== *)
(** * The parser, run by run *)
(* ================================================================== *)

Section ParserRuns.

Variable tokens : list jsstring.

(** [PE count ast count'] is to hold of every run of [parseExpression] from
    cursor [count] that returns [ast] and leaves the cursor at [count'];
    [PW count more count'] of every run of the loop of [parseOp] that
    pushes the operands [more]. *)
Variable PE : nat -> Parser -> nat -> Prop.
Variable PW : nat -> list Parser -> nat -> Prop.

Hypothesis PE_number :
  forall count t,
    nth_error tokens count = Some t -> existsb is_digit t = true ->
    PE count (NumberParser (parseInt t)) (S count).
Hypothesis PE_operation :
  forall count more count',
    RegExp_digit_test (peek tokens count) = false ->
    PW (S count) more count' ->
    PE count (OperationParser (nth_error tokens count) more) count'.
Hypothesis PW_stop :
  forall count, ToBoolean_opt (peek tokens count) = false -> PW count [] count.
Hypothesis PW_step :
  forall count e count1 more count2,
    ToBoolean_opt (peek tokens count) = true ->
    PE count e count1 -> PW count1 more count2 -> PW count (e :: more) count2.

(** Induction over the runs of the parser. *)
Lemma parser_runs (fuel : nat) :
  (forall count ast count',
      parseExpression fuel tokens count = Some (ast, count') -> PE count ast count')
  /\ (forall count ast count',
         RegExp_digit_test (peek tokens count) = false ->
         parseOp fuel tokens count = Some (ast, count') -> PE count ast count')
  /\ (forall count expression l count',
         parseOp_while fuel tokens count expression = Some (l, count') ->
         exists more, l = expression ++ more /\ PW count more count').
Proof.
  induction fuel as [|fuel (IHe & IHo & IHw)].
  - repeat split; intros; discriminate.
  - split; [|split].
    + intros count ast count'. rewrite parseExpression_S.
      destruct (RegExp_digit_test (peek tokens count)) eqn:T.
      * intros [= <- <-]. unfold peek, RegExp_digit_test in T.
        destruct (nth_error tokens count) as [t|] eqn:E; [|discriminate T].
        now apply PE_number.
      * now apply IHo.
    + intros count ast count' T. rewrite parseOp_S.
      destruct (parseOp_while fuel tokens (S count) []) as [[l c]|] eqn:W;
        [|discriminate].
      intros [= <- <-]. destruct (IHw _ _ _ _ W) as (more & -> & H).
      now apply PE_operation.
    + intros count expression l count'. rewrite parseOp_while_S.
      destruct (ToBoolean_opt (peek tokens count)) eqn:T.
      * destruct (parseExpression fuel tokens count) as [[e c]|] eqn:E;
          [|discriminate].
        intros W. destruct (IHw _ _ _ _ W) as (more & -> & H).
        exists (e :: more). rewrite <- app_assoc. split; [reflexivity|].
        apply PW_step with c; auto.
      * intros [= <- <-]. exists []. rewrite app_nil_r. auto.
Qed.

Lemma parse_runs (ast : Parser) :
  parse tokens = Some ast -> exists count', PE 0 ast count'.
Proof.
  unfold parse.
  destruct (parseExpression (parse_fuel tokens) tokens 0) as [[a c]|] eqn:E;
    [|discriminate].
  intros [= <-]. exists c. now apply (proj1 (parser_runs _)) in E.
Qed.

End ParserRuns.

Section ParserCursor.

Variable tokens : list jsstring.

Lemma truthy_lt (count : nat) :
  ToBoolean_opt (peek tokens count) = true -> count < List.length tokens.
Proof.
  unfold peek. intros H. apply nth_error_Some.
  destruct (nth_error tokens count); [discriminate | discriminate H].
Qed.

(** The cursor moves by one token per node, stays within the tokens, and an
    operation is left only where no operand can start; the nodes in
    pre-order are what the parser makes of the tokens it passed. *)
Lemma parse_cursor (ast : Parser) :
  parse tokens = Some ast ->
  exists count',
    count' = List.length (nodes ast)
    /\ (tokens <> [] -> count' <= List.length tokens)
    /\ (is_number ast = false -> ToBoolean_opt (peek tokens count') = false)
    /\ map head_of (nodes ast)
       = map (head_at tokens) (seq 0 (List.length (nodes ast))).
Proof.
  intros P.
  pose (PE1 := fun (count : nat) (ast : Parser) (count' : nat) =>
       count' = count + List.length (nodes ast)
       /\ (count < List.length tokens -> count' <= List.length tokens)
       /\ (is_number ast = false -> ToBoolean_opt (peek tokens count') = false)
       /\ map head_of (nodes ast)
          = map (head_at tokens) (seq count (List.length (nodes ast)))).
  pose (PW1 := fun (count : nat) (more : list Parser) (count' : nat) =>
       count' = count + List.length (flat_map nodes more)
       /\ (count <= List.length tokens -> count' <= List.length tokens)
       /\ ToBoolean_opt (peek tokens count') = false
       /\ map head_of (flat_map nodes more)
          = map (head_at tokens) (seq count (List.length (flat_map nodes more)))).
  assert (R : exists count', PE1 0 ast count');
    [apply (@parse_runs tokens PE1 PW1); unfold PE1, PW1; [| | | |exact P]
    |destruct R as (c & Hc & Hlen & Hstop & Hmap)].
  - intros count t E D. cbn [nodes List.length is_number head_of map seq].
    split; [lia | split; [|split; [discriminate|]]].
    + intros _. apply Nat.le_succ_l. apply nth_error_Some. now rewrite E.
    + unfold head_at, RegExp_digit_test. rewrite E. simpl. now rewrite D.
  - intros count more c T (Hc & Hlen & Hstop & Hmap).
    cbn [nodes List.length is_number head_of map seq].
    split; [lia | split; [intros; apply Hlen; lia | split; [auto|]]].
    f_equal; [|exact Hmap].
    unfold head_at. unfold peek in T. now rewrite T.
  - intros count F. cbn [flat_map List.length map seq].
    split; [lia | split; [auto | split; [exact F | reflexivity]]].
  - intros count e c1 more c2 T (Hc1 & Hl1 & _ & Hm1) (Hc2 & Hl2 & Hs2 & Hm2).
    apply truthy_lt in T. cbn [flat_map]. rewrite length_app.
    split; [lia | split; [intros; apply Hl2, Hl1, T | split; [exact Hs2|]]].
    rewrite map_app, seq_app, map_app, Hm1, <- Hc1, Hm2. reflexivity.
  - exists c. split; [exact Hc | split; [|split; [exact Hstop | exact Hmap]]].
    intros Hne. apply Hlen. destruct tokens; [congruence | simpl; lia].
Qed.

Lemma Forall_flat_nodes (Q : Parser -> Prop) (l : list Parser) :
  Forall (fun a => Forall Q (nodes a)) l -> Forall Q (flat_map nodes l).
Proof.
  induction 1 as [|a r Ha _ IH]; cbn [flat_map]; [constructor|].
  apply Forall_app. now split.
Qed.

(** Only the last operand of a node can be an operation. *)
Lemma parse_shape (ast : Parser) :
  parse tokens = Some ast -> Forall (fun n => shape_ok n = true) (nodes ast).
Proof.
  intros P.
  pose (PE2 := fun (count : nat) (ast : Parser) (count' : nat) =>
       Forall (fun n => shape_ok n = true) (nodes ast)
       /\ (is_number ast = false -> ToBoolean_opt (peek tokens count') = false)).
  pose (PW2 := fun (count : nat) (more : list Parser) (count' : nat) =>
       Forall (fun a => Forall (fun n => shape_ok n = true) (nodes a)) more
       /\ forallb is_number (removelast more) = true
       /\ (ToBoolean_opt (peek tokens count) = false -> more = [])
       /\ ToBoolean_opt (peek tokens count') = false).
  assert (R : exists count', PE2 0 ast count');
    [apply (@parse_runs tokens PE2 PW2); unfold PE2, PW2; [| | | |exact P]
    |destruct R as (c & H & _); exact H].
  - intros count t E D. split; [repeat constructor | discriminate].
  - intros count more c T (Hall & Hlast & _ & Hstop). split; [|auto].
    cbn [nodes]. constructor; [exact Hlast | now apply Forall_flat_nodes].
  - intros count F. repeat split; auto.
  - intros count e c1 more c2 T (He & Hstop) (Hall & Hlast & Hnil & Hs2).
    repeat split; auto.
    + destruct (is_number e) eqn:N.
      * destruct more as [|m r]; [reflexivity|].
        change (removelast (e :: m :: r)) with (e :: removelast (m :: r)).
        cbn [forallb]. now rewrite N, Hlast.
      * rewrite (Hnil (Hstop eq_refl)). reflexivity.
    + intros F. rewrite F in T. discriminate.
Qed.

End ParserCursor.

Section ParserPositions.

Variable tokens : list jsstring.

(** The node that is number [k] of the tree in pre-order was read at token
    [k]: an operation node there carries [tokens[k]] as its operator, and its
    operand list is empty exactly when [tokens[k+1]] is missing or empty. *)
Lemma parse_positions (ast : Parser) :
  parse tokens = Some ast ->
  forall k val expression,
    nth_error (nodes ast) k = Some (OperationParser val expression) ->
    val = nth_error tokens k
    /\ (expression = [] <-> ToBoolean_opt (nth_error tokens (S k)) = false).
Proof.
  intros P.
  pose (at_position := fun (count : nat) (l : list Parser) =>
       forall k val expression,
         nth_error l k = Some (OperationParser val expression) ->
         val = nth_error tokens (count + k)
         /\ (expression = []
             <-> ToBoolean_opt (nth_error tokens (S (count + k))) = false)).
  pose (PE3 := fun (count : nat) (ast : Parser) (count' : nat) =>
       count' = count + List.length (nodes ast) /\ at_position count (nodes ast)).
  pose (PW3 := fun (count : nat) (more : list Parser) (count' : nat) =>
       count' = count + List.length (flat_map nodes more)
       /\ (more = [] <-> ToBoolean_opt (peek tokens count) = false)
       /\ at_position count (flat_map nodes more)).
  assert (R : exists count', PE3 0 ast count');
    [apply (@parse_runs tokens PE3 PW3); unfold PE3, PW3, at_position; [| | | |exact P]
    |destruct R as (c & _ & H); exact H].
  - intros count t E D. split; [cbn [nodes List.length]; lia|].
    intros [|k] val expression H; [discriminate|]. now destruct k.
  - intros count more c T (Hc & Hnil & Hat). cbn [nodes List.length].
    split; [lia|]. intros [|k] val expression H.
    + cbn [nth_error] in H. injection H as <- <-.
      rewrite Nat.add_0_r. split; [reflexivity | exact Hnil].
    + cbn [nth_error] in H. rewrite Nat.add_succ_r. now apply Hat.
  - intros count F. split; [cbn; lia | split; [now split|]].
    intros k val expression H. now destruct k.
  - intros count e c1 more c2 T (Hc1 & Hat1) (Hc2 & _ & Hat2). cbn [flat_map].
    rewrite length_app. split; [lia | split].
    + split; [discriminate | intros F; rewrite F in T; discriminate].
    + intros k val expression H.
      destruct (Nat.lt_ge_cases k (List.length (nodes e))) as [Hk | Hk].
      * rewrite nth_error_app1 in H by exact Hk. now apply Hat1.
      * rewrite nth_error_app2 in H by exact Hk.
        replace (count + k) with (c1 + (k - List.length (nodes e))) by lia.
        now apply Hat2.
Qed.

End ParserPositions.

(** C5 (as amended).  The operation node that is number [k] of the tree in
    pre-order was read at token [k]: its operator is [tokens[k]] and its
    operand list is empty exactly when the token after its operator,
    [tokens[k+1]], is missing or empty.  So when no token is empty (as in
    every result of [lex]) and the last token contains a decimal digit,
    every operation node of the tree has at least one operand. *)
Theorem parse_operands_nonempty :
  (forall tokens ast k val expression,
      parse tokens = Some ast ->
      nth_error (nodes ast) k = Some (OperationParser val expression) ->
      val = nth_error tokens k
      /\ (expression = [] <-> ToBoolean_opt (nth_error tokens (S k)) = false))
  /\ (forall tokens ast val expression,
         Forall (fun t => nonempty t = true) tokens ->
         existsb is_digit (last tokens []) = true ->
         parse tokens = Some ast ->
         In (OperationParser val expression) (nodes ast) ->
         expression <> []).
Proof.
  split.
  - intros tokens ast k val expression P H. now apply (parse_positions tokens P k).
  - intros tokens ast val expression Hne Hlast P H.
    destruct (@parse_operands tokens ast val expression P H) as (i & Hi & V & T & E).
    intros Hnil. apply E in Hnil.
    assert (Htok : tokens <> []) by (intros ->; discriminate Hlast).
    destruct Hi as [Hi | Hi]; [|contradiction].
    pose proof (@nth_error_last jsstring tokens [] Htok) as L.
    assert (Hsi : S i < List.length tokens).
    { destruct (Nat.eq_dec (S i) (List.length tokens)) as [Heq | Hneq]; [|lia].
      rewrite <- Heq in L. simpl in L. rewrite Nat.sub_0_r in L.
      rewrite V, L in T. unfold RegExp_digit_test in T. simpl in T.
      rewrite Hlast in T. discriminate. }
    destruct (nth_error tokens (S i)) as [t|] eqn:Et.
    + simpl in Hnil. rewrite Forall_forall in Hne.
      rewrite (Hne t) in Hnil; [discriminate|]. now apply nth_error_In with (S i).
    + apply nth_error_None in Et. lia.
Qed.

(** C5, an input the theorem applies to: the tokens of ["sub 2 sum 1 3 4"],
    whose node 2 is the [sum] read at token 2. *)
Lemma parse_operands_nonempty_witness :
  (Some (js "sum") = nth_error (lex (js "sub 2 sum 1 3 4")) 2
   /\ ([NumberParser 1%float; NumberParser 3%float; NumberParser 4%float] = []
       <-> ToBoolean_opt (nth_error (lex (js "sub 2 sum 1 3 4")) 3) = false))
  /\ [NumberParser 1%float; NumberParser 3%float; NumberParser 4%float] <> [].
Proof.
  split.
  - apply (proj1 parse_operands_nonempty (lex (js "sub 2 sum 1 3 4"))
             (OperationParser (Some (js "sub"))
                [NumberParser 2%float;
                 OperationParser (Some (js "sum"))
                   [NumberParser 1%float; NumberParser 3%float; NumberParser 4%float]])
             2 (Some (js "sum"))).
    + vm_compute. reflexivity.
    + reflexivity.
  - apply (proj2 parse_operands_nonempty (lex (js "sub 2 sum 1 3 4"))
             (OperationParser (Some (js "sub"))
                [NumberParser 2%float;
                 OperationParser (Some (js "sum"))
                   [NumberParser 1%float; NumberParser 3%float; NumberParser 4%float]])
             (Some (js "sum"))).
    + vm_compute. repeat constructor.
    + vm_compute. reflexivity.
    + vm_compute. reflexivity.
    + simpl. right. right. left. reflexivity.
Defined.

(** C5, as stated, fails when an operator is the last token: the tree for
    ["sub"] is an operation node without operands, and so is the inner node
    of the tree for ["sum 1 sub"]. *)
Lemma parse_operator_last :
  parse (lex (js "sub")) = Some (OperationParser (Some (js "sub")) [])
  /\ parse (lex (js "sum 1 sub")) =
     Some (OperationParser (Some (js "sum"))
             [NumberParser 1%float; OperationParser (Some (js "sub")) []]).
Proof. split; vm_compute; reflexivity. Qed.


Lemma head_at_classify (l pre post : list jsstring) :
  map (head_at (pre ++ l ++ post)) (seq (List.length pre) (List.length l))
  = map classify l.
Proof.
  revert pre. induction l as [|x r IH]; intros pre; [reflexivity|].
  cbn [List.length seq map]. f_equal.
  - unfold head_at, classify, RegExp_digit_test.
    rewrite nth_error_app2, Nat.sub_diag by lia. reflexivity.
  - specialize (IH (pre ++ [x])).
    rewrite length_app, Nat.add_1_r, <- app_assoc in IH. exact IH.
Qed.

Lemma head_at_firstn (tokens : list jsstring) (n : nat) :
  n <= List.length tokens ->
  map (head_at tokens) (seq 0 n) = map classify (firstn n tokens).
Proof.
  intros H.
  pose proof (head_at_classify (firstn n tokens) [] (skipn n tokens)) as E.
  rewrite length_firstn, Nat.min_l in E by exact H.
  cbn [app List.length] in E. now rewrite firstn_skipn in E.
Qed.

(** X1.  Tokens after a leading number are ignored: when the first token
    contains a decimal digit, [parse] returns the number node for it,
    whatever follows. *)
Theorem parse_number_first :
  forall t rest,
    existsb is_digit t = true ->
    parse (t :: rest) = Some (NumberParser (parseInt t)).
Proof.
  intros t rest D. unfold parse.
  destruct (parse_fuel (t :: rest)) as [|fuel] eqn:F; [unfold parse_fuel in F; lia|].
  rewrite parseExpression_S. unfold peek, RegExp_digit_test. simpl.
  now rewrite D.
Qed.

Lemma parse_number_first_witness :
  parse [js "7"; js "sum"; js "1"] = Some (NumberParser (parseInt (js "7"))).
Proof. apply parse_number_first. reflexivity. Defined.

(** X2.  The tree reads back as the tokens: the nodes in pre-order are, one
    for one, what the parser makes of the first tokens (a number node with
    [parseInt] of a token that contains a digit, an operation node with any
    other token as operator), as many tokens as the tree has nodes. *)
Theorem parse_reads_back :
  forall tokens ast,
    tokens <> [] ->
    parse tokens = Some ast ->
    List.length (nodes ast) <= List.length tokens
    /\ map head_of (nodes ast)
       = map classify (firstn (List.length (nodes ast)) tokens).
Proof.
  intros tokens ast Hne P.
  destruct (parse_cursor tokens P) as (c & Hc & Hlen & _ & Hmap).
  subst c. specialize (Hlen Hne). split; [exact Hlen|].
  now rewrite Hmap, head_at_firstn.
Qed.

Lemma parse_reads_back_witness :
  List.length (nodes (NumberParser 7%float)) <= List.length [js "7"; js "sum"]
  /\ map head_of (nodes (NumberParser 7%float))
     = map classify (firstn (List.length (nodes (NumberParser 7%float)))
                       [js "7"; js "sum"]).
Proof.
  apply (@parse_reads_back [js "7"; js "sum"] (NumberParser 7%float)).
  - discriminate.
  - vm_compute. reflexivity.
Defined.

Lemma parse_all_tokens (t : jsstring) (rest : list jsstring) (ast : Parser) :
  Forall (fun x => nonempty x = true) (t :: rest) ->
  existsb is_digit t = false ->
  parse (t :: rest) = Some ast ->
  List.length (nodes ast) = List.length (t :: rest)
  /\ map head_of (nodes ast) = map classify (t :: rest).
Proof.
  intros Hne T P.
  destruct (parse_cursor (t :: rest) P) as (c & Hc & Hlen & Hstop & Hmap).
  specialize (Hlen ltac:(discriminate)).
  assert (Hop : is_number ast = false).
  { destruct ast as [v|v e]; [|reflexivity].
    cbn [nodes List.length seq map head_of] in Hmap.
    unfold head_at, RegExp_digit_test in Hmap. simpl in Hmap.
    rewrite T in Hmap. discriminate. }
  specialize (Hstop Hop).
  assert (Hfull : c = List.length (t :: rest)).
  { destruct (Nat.eq_dec c (List.length (t :: rest))) as [|Hneq]; [assumption|].
    unfold peek in Hstop.
    destruct (nth_error (t :: rest) c) as [x|] eqn:E.
    - rewrite Forall_forall in Hne. simpl in Hstop.
      rewrite (Hne x) in Hstop; [discriminate | now apply nth_error_In with c].
    - apply nth_error_None in E. lia. }
  rewrite <- Hc, Hfull. split; [reflexivity|].
  rewrite Hmap, <- Hc, Hfull. rewrite head_at_firstn by lia.
  now rewrite firstn_all.
Qed.

(** X3.  After a leading operator every token is consumed: when no token is
    empty and the first one contains no digit, the tree has one node per
    token, and in pre-order the nodes are what the parser makes of the
    tokens, in order. *)
Theorem parse_consumes_all :
  forall t rest ast,
    Forall (fun x => nonempty x = true) (t :: rest) ->
    existsb is_digit t = false ->
    parse (t :: rest) = Some ast ->
    List.length (nodes ast) = List.length (t :: rest)
    /\ map head_of (nodes ast) = map classify (t :: rest).
Proof. intros t rest ast. apply parse_all_tokens. Qed.

Lemma parse_consumes_all_witness :
  List.length
    (nodes (OperationParser (Some (js "sum")) [NumberParser 1%float; NumberParser 2%float]))
  = List.length [js "sum"; js "1"; js "2"]
  /\ map head_of
       (nodes (OperationParser (Some (js "sum")) [NumberParser 1%float; NumberParser 2%float]))
     = map classify [js "sum"; js "1"; js "2"].
Proof.
  apply parse_consumes_all.
  - vm_compute. repeat constructor.
  - reflexivity.
  - vm_compute. reflexivity.
Defined.

(** X4.  Operands are read greedily, so nesting is to the right only: in
    every operand list of a tree that [parse] returns, an operand that is
    followed by another operand is a number. *)
Theorem parse_operation_last :
  forall tokens ast val pre x post,
    parse tokens = Some ast ->
    In (OperationParser val (pre ++ x :: post)) (nodes ast) ->
    post <> [] ->
    exists v, x = NumberParser v.
Proof.
  intros tokens ast val pre x post P H Hpost.
  pose proof (parse_shape tokens P) as S. rewrite Forall_forall in S.
  specialize (S _ H). cbn [shape_ok] in S.
  rewrite removelast_app in S by discriminate.
  rewrite forallb_app in S. apply andb_prop in S. destruct S as [_ S].
  destruct post as [|y post]; [congruence|].
  change (removelast (x :: y :: post)) with (x :: removelast (y :: post)) in S.
  cbn [forallb] in S. apply andb_prop in S. destruct S as [S _].
  destruct x as [v|v e]; [now exists v | discriminate].
Qed.

Lemma parse_operation_last_witness :
  exists v, NumberParser 2%float = NumberParser v.
Proof.
  apply (@parse_operation_last (lex (js "sub 2 sum 1 3 4"))
           (OperationParser (Some (js "sub"))
              [NumberParser 2%float;
               OperationParser (Some (js "sum"))
                 [NumberParser 1%float; NumberParser 3%float; NumberParser 4%float]])
           (Some (js "sub")) [] (NumberParser 2%float)
           [OperationParser (Some (js "sum"))
              [NumberParser 1%float; NumberParser 3%float; NumberParser 4%float]]).
  - vm_compute. reflexivity.
  - left. reflexivity.
  - discriminate.
Defined.

(** X5.  An operator of the tree is a token without a decimal digit; it is
    [undefined] only when there is no token at all. *)
Theorem parse_operator_token :
  forall tokens ast val expression,
    parse tokens = Some ast ->
    In (OperationParser val expression) (nodes ast) ->
    (exists t, val = Some t /\ In t tokens /\ existsb is_digit t = false)
    \/ (val = None /\ tokens = []).
Proof.
  intros tokens ast val expression P H.
  destruct (@parse_operands tokens ast val expression P H) as (i & Hi & V & T & _).
  destruct Hi as [Hi | ->].
  - left. apply nth_error_Some in Hi.
    destruct (nth_error tokens i) as [t|] eqn:E; [|congruence].
    exists t. subst val. repeat split; [now apply nth_error_In with i | exact T].
  - right. split; [|reflexivity]. rewrite V. now destruct i.
Qed.

Lemma parse_operator_token_witness :
  (exists t, Some (js "sum") = Some t /\ In t (lex (js "sum 1 2"))
             /\ existsb is_digit t = false)
  \/ (Some (js "sum") = None /\ lex (js "sum 1 2") = []).
Proof.
  apply (@parse_operator_token (lex (js "sum 1 2"))
           (OperationParser (Some (js "sum")) [NumberParser 1%float; NumberParser 2%float])
           (Some (js "sum")) [NumberParser 1%float; NumberParser 2%float]).
  - vm_compute. reflexivity.
  - left. reflexivity.
Defined.

(* ================================================================== *)
(** * The two pipelines on flat programs *)
(* ================================================================== *)

Section Pipelines.

Lemma all_digits_clean (t : jsstring) :
  all_digits t = true -> clean_token t /\ existsb is_digit t = true.
Proof.
  unfold all_digits. intros H. apply andb_prop in H. destruct H as [Hn Hd].
  assert (W : Forall (fun c => is_whitespace c = false) t).
  { apply Forall_forall. intros c Hc. apply digit_not_whitespace.
    rewrite forallb_forall in Hd. now apply Hd. }
  split; [split; [exact Hn | split; [now apply no_whitespace_trimmed|]]|].
  - intros Hs. rewrite Forall_forall in W. now specialize (W _ Hs).
  - destruct t as [|c r]; [discriminate|]. simpl in *.
    apply andb_prop in Hd. destruct Hd as [-> _]. reflexivity.
Qed.

Lemma keyword_clean (op : OperatorKind) :
  clean_token (keyword op) /\ existsb is_digit (keyword op) = false.
Proof.
  destruct op; (split; [split; [reflexivity | split; [split; reflexivity|]] | reflexivity]);
    vm_compute; intros H; repeat (destruct H as [H | H]; [discriminate H|]);
    exact H.
Qed.

(** A tree whose nodes below the root are all numbers is flat. *)
Lemma flat_numbers (e : list Parser) :
  forall vs, map head_of (flat_map nodes e) = map inl vs -> e = map NumberParser vs.
Proof.
  induction e as [|x r IH]; intros vs H.
  - destruct vs; [reflexivity | discriminate].
  - destruct x as [v|v ops].
    + destruct vs as [|w vs]; [discriminate|].
      cbn [flat_map nodes app map head_of] in H.
      injection H as -> H. cbn [map]. f_equal. now apply IH.
    + destruct vs as [|w vs]; discriminate.
Qed.

(** An operator followed by tokens that hold a digit parses to one node
    with a number per token. *)
Lemma parse_flat (op : jsstring) (nums : list jsstring) :
  nonempty op = true -> existsb is_digit op = false ->
  Forall (fun t => existsb is_digit t = true) nums ->
  parse (op :: nums)
  = Some (OperationParser (Some op) (map (fun t => NumberParser (parseInt t)) nums)).
Proof.
  intros Hn Hop Hnums.
  destruct (parse_total (op :: nums)) as [ast P]. rewrite P. f_equal.
  assert (Hne : Forall (fun x => nonempty x = true) (op :: nums)).
  { constructor; [exact Hn|]. eapply Forall_impl; [|exact Hnums].
    intros [|c r]; [discriminate | reflexivity]. }
  destruct (parse_all_tokens Hne Hop P) as [_ H].
  destruct ast as [v|val e].
  - cbn [nodes map head_of] in H. unfold classify in H. rewrite Hop in H. discriminate.
  - cbn [nodes map head_of] in H. unfold classify at 1 in H. rewrite Hop in H.
    injection H as -> H. f_equal.
    rewrite (flat_numbers e (map parseInt nums)); [now rewrite map_map|].
    rewrite H, map_map. apply map_ext_in. intros t Ht. unfold classify.
    rewrite Forall_forall in Hnums. now rewrite (Hnums t Ht).
Qed.

Lemma Array_map_numbers (A : Type) (f : Parser -> completion A) (g : number -> A)
    (vs : list number) :
  (forall v, f (NumberParser v) = Normal (g v)) ->
  Array_map f (map NumberParser vs) = Normal (map g vs).
Proof.
  intros H. induction vs as [|v r IH]; [reflexivity|].
  cbn [map Array_map]. now rewrite H, IH.
Qed.

(** The tokens and the tree of a flat program: a keyword and numerals,
    separated by single spaces. *)
Lemma front_end_flat (op : OperatorKind) (nums : list jsstring) :
  Forall (fun t => all_digits t = true) nums ->
  lex (join (js " ") (keyword op :: nums)) = keyword op :: nums
  /\ parse (keyword op :: nums)
     = Some (OperationParser (Some (keyword op)) (map NumberParser (map numeral nums))).
Proof.
  intros H. split.
  - apply lex_join. constructor; [apply keyword_clean|].
    eapply Forall_impl; [|exact H]. intros t Ht. now apply all_digits_clean.
  - rewrite parse_flat.
    + do 2 f_equal. rewrite map_map. apply map_ext_in. intros t Ht.
      rewrite Forall_forall in H. unfold numeral.
      now rewrite (parseInt_all_digits t (H t Ht)).
    + now destruct op.
    + apply keyword_clean.
    + eapply Forall_impl; [|exact H]. intros t Ht. now apply all_digits_clean.
Qed.

End Pipelines.

(** X6.  The interpreter on a flat program.  For a keyword followed by one
    or more numerals, separated by single spaces,
    [evaluate(parse(lex(program)))] returns the fold of the numerals'
    values: from 0 with addition for [sum], from 1 with multiplication for
    [mul], from the first value with subtraction or division for [sub] and
    [div]. *)
Theorem interpret_flat :
  forall t rest,
    Forall (fun x => all_digits x = true) (t :: rest) ->
    interpret (join (js " ") (js "sum" :: t :: rest))
    = Some (Normal (fold_left PrimFloat.add (map numeral (t :: rest)) 0%float))
    /\ interpret (join (js " ") (js "mul" :: t :: rest))
       = Some (Normal (fold_left PrimFloat.mul (map numeral (t :: rest)) 1%float))
    /\ interpret (join (js " ") (js "sub" :: t :: rest))
       = Some (Normal (fold_left PrimFloat.sub (map numeral rest) (numeral t)))
    /\ interpret (join (js " ") (js "div" :: t :: rest))
       = Some (Normal (fold_left PrimFloat.div (map numeral rest) (numeral t))).
Proof.
  intros t rest H. unfold interpret.
  assert (E : forall op,
             option_map evaluate (parse (lex (join (js " ") (keyword op :: t :: rest))))
             = Some (evaluate (OperationParser (Some (keyword op))
                                 (map NumberParser (map numeral (t :: rest)))))).
  { intros op. destruct (front_end_flat op H) as [-> ->]. reflexivity. }
  assert (A : Array_map evaluate (map NumberParser (map numeral (t :: rest)))
              = Normal (map numeral (t :: rest))).
  { rewrite (@Array_map_numbers number evaluate (fun v => v)); [now rewrite map_id|].
    reflexivity. }
  repeat split.
  - change (js "sum") with (keyword Sum).
    rewrite (E Sum), evaluate_operation, A. reflexivity.
  - change (js "mul") with (keyword Mul).
    rewrite (E Mul), evaluate_operation, A. reflexivity.
  - change (js "sub") with (keyword Sub).
    rewrite (E Sub), evaluate_operation, A. reflexivity.
  - change (js "div") with (keyword Div).
    rewrite (E Div), evaluate_operation, A. reflexivity.
Qed.

Lemma interpret_flat_witness :
  interpret (join (js " ") [js "sum"; js "1"; js "2"; js "3"])
  = Some (Normal (fold_left PrimFloat.add (map numeral [js "1"; js "2"; js "3"]) 0%float)).
Proof.
  apply (proj1 (@interpret_flat (js "1") [js "2"; js "3"]
                  ltac:(repeat constructor))).
Defined.

(** X7.  The compiler on a flat program.  For a keyword followed by
    numerals, separated by single spaces, [compile(parse(lex(program)))]
    returns the numerals' values as decimal strings, joined with the
    keyword's symbol between single spaces, in parentheses. *)
Theorem translate_flat :
  forall op nums,
    Forall (fun x => all_digits x = true) nums ->
    translate (join (js " ") (keyword op :: nums))
    = Some (Normal (VStr (js "(" ++ join (js " " ++ symbol op ++ js " ")
                                     (map (fun t => Number_toString (numeral t)) nums)
                          ++ js ")"))).
Proof.
  intros op nums H. unfold translate.
  destruct (front_end_flat op H) as [-> ->]. cbn [option_map].
  rewrite compile_operation.
  rewrite (@Array_map_numbers value compile VNum) by reflexivity.
  rewrite (@compile_symbol (Some (keyword op)) op) by now destruct op.
  now rewrite !map_map.
Qed.

Lemma translate_flat_witness :
  translate (join (js " ") (keyword Mul :: [js "2"; js "3"; js "4"]))
  = Some (Normal (VStr (js "(" ++ join (js " " ++ symbol Mul ++ js " ")
                                   (map (fun t => Number_toString (numeral t))
                                        [js "2"; js "3"; js "4"])
                        ++ js ")"))).
Proof. apply translate_flat. repeat constructor. Defined.

(* ================================================================== *)
(** * More on the lexer *)
(* ================================================================== *)

Section LexerMore.

Lemma split_concat (sep : N) (s : jsstring) :
  List.concat (split sep s) = filter (fun c => negb (c =? sep)%N) s.
Proof.
  induction s as [|c r IH]; [reflexivity|]. cbn [split filter].
  destruct (c =? sep)%N; cbn [negb].
  - exact IH.
  - destruct (split_cons sep r) as [p [ps E]]. rewrite E in *.
    cbn [List.concat app] in *. now rewrite IH.
Qed.

Lemma split_app_sep (sep : N) (a b : jsstring) :
  split sep (a ++ sep :: b) = split sep a ++ split sep b.
Proof.
  induction a as [|c r IH]; cbn [app split].
  - now rewrite N.eqb_refl.
  - rewrite IH. destruct (c =? sep)%N; [reflexivity|].
    now destruct (split_cons sep r) as [p [ps ->]].
Qed.

Lemma filter_whitespace_nil (f : N -> bool) (s : jsstring) :
  (forall c, is_whitespace c = true -> f c = false) ->
  forallb is_whitespace s = true -> filter f s = [].
Proof.
  intros Hf. induction s as [|c r IH]; [reflexivity|]. cbn [forallb filter].
  intros H. apply andb_prop in H. destruct H as [Hc Hr].
  now rewrite (Hf c Hc), IH.
Qed.

Lemma trimStart_filter (s : jsstring) :
  filter (fun c => negb (is_whitespace c)) (trimStart s)
  = filter (fun c => negb (is_whitespace c)) s.
Proof.
  destruct (trimStart_prefix s) as [pre [E W]].
  rewrite E at 2. rewrite filter_app, (filter_whitespace_nil _ pre); auto.
  now intros c ->.
Qed.

(** [trim] removes white space only. *)
Lemma trim_filter (s : jsstring) :
  filter (fun c => negb (is_whitespace c)) (trim s)
  = filter (fun c => negb (is_whitespace c)) s.
Proof.
  unfold trim, trimEnd.
  now rewrite filter_rev, trimStart_filter, filter_rev, rev_involutive,
    trimStart_filter.
Qed.

Lemma concat_filter_nonempty (l : list jsstring) :
  List.concat (filter nonempty l) = List.concat l.
Proof.
  induction l as [|x r IH]; [reflexivity|]. cbn [filter List.concat].
  destruct x as [|c x]; cbn [nonempty]; [exact IH|]. cbn [List.concat]. now rewrite IH.
Qed.

End LexerMore.

(** X8.  Every token that [lex] returns is non-empty, holds no U+0020, and
    neither starts nor ends with white space. *)
Theorem lex_clean_tokens :
  forall s t, In t (lex s) -> clean_token t.
Proof.
  intros s t H. pose proof (lex_tokens s) as F.
  rewrite Forall_forall in F. exact (F t H).
Qed.

Lemma lex_clean_tokens_witness : clean_token (js "sum").
Proof.
  apply (@lex_clean_tokens (js "  sum 1") (js "sum")). left. reflexivity.
Defined.

(** X9.  Lexing two texts with a space between them gives the tokens of the
    first followed by the tokens of the second. *)
Theorem lex_app :
  forall a b, lex (a ++ SPACE :: b) = lex a ++ lex b.
Proof.
  intros a b. unfold lex. now rewrite split_app_sep, map_app, filter_app.
Qed.

(** X10.  [lex] undoes [join(' ')]: tokens that are non-empty, trimmed and
    free of U+0020 come back unchanged from the string that joins them with
    single spaces. *)
Theorem lex_join_tokens :
  forall l, Forall clean_token l -> lex (join (js " ") l) = l.
Proof. intros l H. now apply lex_join. Qed.

Lemma lex_join_tokens_witness :
  lex (join (js " ") [js "sub"; js "2"]) = [js "sub"; js "2"].
Proof.
  apply lex_join_tokens.
  repeat constructor; vm_compute; intros H;
    repeat (destruct H as [H | H]; [discriminate H|]); exact H.
Defined.

(** X11.  [lex] loses white space only: white space left aside, the
    characters of the tokens, taken in order, are the characters of the
    input. *)
Theorem lex_keeps_characters :
  forall s,
    filter (fun c => negb (is_whitespace c)) (List.concat (lex s))
    = filter (fun c => negb (is_whitespace c)) s.
Proof.
  intros s. unfold lex. rewrite concat_filter_nonempty.
  transitivity (filter (fun c => negb (is_whitespace c)) (List.concat (split SPACE s))).
  - induction (split SPACE s) as [|p ps IH]; [reflexivity|].
    cbn [map List.concat]. now rewrite !filter_app, trim_filter, IH.
  - rewrite split_concat. induction s as [|c r IH]; [reflexivity|].
    cbn [filter]. destruct (N.eqb_spec c SPACE) as [-> | _]; cbn [negb filter].
    + exact IH.
    + now rewrite IH.
Qed.

(* ================================================================== *)
(** * More on the evaluator *)
(* ================================================================== *)

Section EvaluatorMore.

Lemma Array_map_throws (A B : Type) (f : A -> completion B)
    (pre post : list A) (x : A) (ys : list B) (e : exn) :
  Array_map f pre = Normal ys -> f x = Throw e ->
  Array_map f (pre ++ x :: post) = Throw e.
Proof.
  revert ys. induction pre as [|a r IH]; intros ys Hpre Hx; cbn [app Array_map].
  - now rewrite Hx.
  - cbn [Array_map] in Hpre. destruct (f a) as [y| |]; try discriminate.
    destruct (Array_map f r) as [zs| |] eqn:E; try discriminate.
    now rewrite (IH zs eq_refl Hx).
Qed.

(** The operands of a tree with the four operators only: either all of
    them evaluate, or [reduce] raised in one of them. *)
Lemma evaluate_operands (expression : list Parser) :
  Forall (fun a => recognized a = true ->
                   (well_formed a = true /\ exists v, evaluate a = Normal v)
                   \/ (well_formed a = false
                       /\ evaluate a = Throw ReduceOfEmptyArray)) expression ->
  forallb recognized expression = true ->
  (forallb well_formed expression = true
   /\ exists vs, Array_map evaluate expression = Normal vs
                 /\ List.length vs = List.length expression)
  \/ (forallb well_formed expression = false
      /\ Array_map evaluate expression = Throw ReduceOfEmptyArray).
Proof.
  induction 1 as [|a r Ha _ IH]; cbn [forallb Array_map List.length]; intros R.
  - left. split; [reflexivity|]. now exists [].
  - apply andb_prop in R. destruct R as [Ra Rr].
    destruct (Ha Ra) as [[Wa [v Ev]] | [Wa Ev]]; rewrite Wa, Ev.
    + destruct (IH Rr) as [[Wr (vs & Evs & L)] | [Wr Evs]]; rewrite Wr, Evs.
      * left. split; [reflexivity|]. exists (v :: vs). split; [reflexivity|].
        cbn [List.length]. now rewrite L.
      * right. split; reflexivity.
    + right. split; reflexivity.
Qed.

End EvaluatorMore.

(** X12.  An operator that [operationMap] does not hold makes [evaluate]
    raise, once the operands are evaluated: when the operator is none of
    the four keywords and no member of [Object.prototype], and every operand
    evaluates to a number, the call of [undefined] raises a [TypeError]. *)
Theorem evaluate_unknown_operator :
  forall val expression args,
    operator_of val = None ->
    in_Object_prototype (ToString_opt val) = false ->
    Array_map evaluate expression = Normal args ->
    evaluate (OperationParser val expression) = Throw NotAFunction.
Proof.
  intros val expression args O I A. rewrite evaluate_operation, A.
  unfold evaluate_operationMap. now rewrite (get_unrecognized _ _ _ _ _ O I).
Qed.

Lemma evaluate_unknown_operator_witness :
  evaluate (OperationParser (Some (js "pow")) [NumberParser 2%float; NumberParser 3%float])
  = Throw NotAFunction.
Proof.
  apply (@evaluate_unknown_operator (Some (js "pow"))
           [NumberParser 2%float; NumberParser 3%float] [2%float; 3%float]);
    reflexivity.
Defined.

(** X13.  The first operand that raises decides: when the operands before it
    evaluate and it raises [e], the node raises [e], whatever its operator
    (also an unknown one) and whatever follows. *)
Theorem evaluate_operand_throws :
  forall val pre x post args e,
    Array_map evaluate pre = Normal args ->
    evaluate x = Throw e ->
    evaluate (OperationParser val (pre ++ x :: post)) = Throw e.
Proof.
  intros val pre x post args e Hpre Hx.
  rewrite evaluate_operation.
  now rewrite (Array_map_throws evaluate pre post x Hpre Hx).
Qed.

Lemma evaluate_operand_throws_witness :
  evaluate (OperationParser (Some (js "pow"))
              ([NumberParser 1%float] ++ OperationParser (Some (js "sub")) []
                 :: [NumberParser 2%float]))
  = Throw ReduceOfEmptyArray.
Proof.
  apply (@evaluate_operand_throws (Some (js "pow")) [NumberParser 1%float]
           (OperationParser (Some (js "sub")) []) [NumberParser 2%float]
           [1%float] ReduceOfEmptyArray); reflexivity.
Defined.

(** X14.  On a tree whose operators are all among the four keywords,
    [evaluate] returns a number exactly when every [sub] and [div] node has
    an operand; otherwise it raises the [TypeError] of [reduce] on an empty
    array.  It does nothing else there. *)
Theorem evaluate_recognized :
  forall ast,
    recognized ast = true ->
    (well_formed ast = true /\ exists v, evaluate ast = Normal v)
    \/ (well_formed ast = false /\ evaluate ast = Throw ReduceOfEmptyArray).
Proof.
  induction ast as [val | val expression IH] using Parser_nested_ind.
  - intros _. left. split; [reflexivity|]. now exists val.
  - rewrite recognized_operation, well_formed_operation, evaluate_operation.
    destruct (operator_of val) as [op|] eqn:O; [|discriminate].
    intros R. unfold evaluate_operationMap. rewrite (get_recognized _ _ _ _ _ O).
    destruct (evaluate_operands IH R) as [[W (vs & -> & L)] | [W ->]]; rewrite W.
    + destruct op; cbn [reduce].
      * left. split; [reflexivity|]. eexists. reflexivity.
      * destruct vs as [|v vs]; destruct expression as [|x r]; try discriminate L.
        -- right. split; reflexivity.
        -- left. split; [reflexivity|]. eexists. reflexivity.
      * destruct vs as [|v vs]; destruct expression as [|x r]; try discriminate L.
        -- right. split; reflexivity.
        -- left. split; [reflexivity|]. eexists. reflexivity.
      * left. split; [reflexivity|]. eexists. reflexivity.
    + right. destruct op; rewrite ?andb_false_r; split; reflexivity.
Qed.

Lemma evaluate_recognized_witness :
  (well_formed (OperationParser (Some (js "sum")) [OperationParser (Some (js "div")) []])
   = true
   /\ exists v, evaluate (OperationParser (Some (js "sum"))
                            [OperationParser (Some (js "div")) []]) = Normal v)
  \/ (well_formed (OperationParser (Some (js "sum")) [OperationParser (Some (js "div")) []])
      = false
      /\ evaluate (OperationParser (Some (js "sum"))
                     [OperationParser (Some (js "div")) []])
         = Throw ReduceOfEmptyArray).
Proof. apply evaluate_recognized. reflexivity. Defined.

(* ================================================================== *)
(** * More on the code generator *)
(* ================================================================== *)

Section CompilerMore.

Lemma plain_app (a b : jsstring) : plain a -> plain b -> plain (a ++ b).
Proof. unfold plain. intros Ha Hb. now rewrite forallb_app, Ha, Hb. Qed.

Lemma plain_decimal_digits (fuel : nat) :
  forall z acc, plain acc -> plain (decimal_digits fuel z acc).
Proof.
  induction fuel as [|fuel IH]; intros z acc H; cbn [decimal_digits]; [exact H|].
  assert (H' : plain ((48 + Z.to_N (z mod 10))%N :: acc)).
  { unfold plain. cbn [forallb]. rewrite H, andb_true_r. apply N.ltb_lt. lia. }
  destruct (z <? 10)%Z; [exact H' | now apply IH].
Qed.

Lemma plain_zeros (n : Z) : plain (zeros n).
Proof.
  unfold zeros. induction (Z.to_nat n) as [|k IH]; [reflexivity|].
  unfold plain in *. cbn [repeat forallb]. now rewrite IH.
Qed.

Lemma plain_firstn_skipn (n : nat) (l : jsstring) :
  plain l -> plain (firstn n l) /\ plain (skipn n l).
Proof.
  unfold plain. intros H. rewrite <- (firstn_skipn n l), forallb_app in H.
  now apply andb_prop in H.
Qed.

Lemma plain_layout (s n k : Z) : plain (layout s n k).
Proof.
  assert (D : forall z, plain (digits_of_Z z))
    by (intros z; now apply plain_decimal_digits).
  unfold layout.
  destruct ((-5 <=? n) && (n <=? 21))%Z.
  - destruct (k <=? n)%Z; [apply plain_app; [apply D | apply plain_zeros]|].
    destruct (0 <? n)%Z.
    + destruct (plain_firstn_skipn (Z.to_nat n) (D s)) as [F S].
      repeat apply plain_app; auto. reflexivity.
    + repeat apply plain_app; auto; [reflexivity | apply plain_zeros].
  - assert (E : plain (js "e" ++ (if (n - 1 <? 0)%Z then js "-" else js "+")
                       ++ digits_of_Z (Z.abs (n - 1)))).
    { repeat apply plain_app; auto; [reflexivity | now destruct (n - 1 <? 0)%Z]. }
    pose proof (D s) as Hs. destruct (digits_of_Z s) as [|d [|d' rest]]; [exact E | |].
    + apply plain_app; [|exact E]. unfold plain in *. cbn [forallb] in *.
      now rewrite andb_true_r in *.
    + unfold plain in Hs. cbn [forallb] in Hs.
      apply andb_prop in Hs. destruct Hs as [Hd Hr].
      apply plain_app; [unfold plain; cbn [forallb]; now rewrite Hd|].
      apply plain_app; [reflexivity|].
      apply plain_app; [exact Hr | exact E].
Qed.

(** The decimal string of a number holds no parenthesis. *)
Lemma plain_Number_toString (x : number) : plain (Number_toString x).
Proof.
  unfold Number_toString. destruct (Prim2SF x) as [s|s| |s m e].
  - reflexivity.
  - now destruct s.
  - reflexivity.
  - apply plain_app; [now destruct s|].
    match goal with |- plain (match ?t with _ => _ end) => destruct t as [[[a b] c]|] end;
      [apply plain_layout | reflexivity].
Qed.

Lemma plain_occurrences (c : N) (s : jsstring) :
  (c <= 42)%N -> plain s -> occurrences c s = 0.
Proof.
  intros Hc H. unfold occurrences. apply count_occ_not_In. intros Hin.
  unfold plain in H. rewrite forallb_forall in H.
  specialize (H c Hin). apply N.ltb_lt in H. lia.
Qed.

Lemma occurrences_app (c : N) (a b : jsstring) :
  occurrences c (a ++ b) = occurrences c a + occurrences c b.
Proof. apply count_occ_app. Qed.

Lemma occurrences_join (c : N) (sep : jsstring) (l : list jsstring) :
  occurrences c sep = 0 ->
  occurrences c (join sep l) = list_sum (map (occurrences c) l).
Proof.
  intros Hsep. induction l as [|x r IH]; [reflexivity|].
  destruct r as [|y r].
  - cbn [join map list_sum fold_right]. lia.
  - change (join sep (x :: y :: r)) with (x ++ sep ++ join sep (y :: r)).
    rewrite !occurrences_app, Hsep, IH. reflexivity.
Qed.

Lemma operations_operands (expression : list Parser) :
  List.length (filter (fun n => negb (is_number n)) (flat_map nodes expression))
  = list_sum (map (fun a => List.length (operations a)) expression).
Proof.
  induction expression as [|a r IH]; [reflexivity|].
  cbn [flat_map map list_sum fold_right]. rewrite filter_app, length_app, IH.
  reflexivity.
Qed.

(** Neither a symbol of [operationMap] nor the text [undefined] holds a
    parenthesis. *)
Lemma separator_plain (c : N) (key : jsstring) :
  c = LPAREN \/ c = RPAREN ->
  match compile_operationMap key with
  | Own symbol => occurrences c (js " " ++ symbol ++ js " ") = 0
  | _ => occurrences c (js " undefined ") = 0
  end.
Proof.
  intros Hc. unfold compile_operationMap, get.
  assert (U : occurrences c (js " undefined ") = 0)
    by (destruct Hc as [-> | ->]; reflexivity).
  repeat match goal with
         | |- context [if ?b then _ else _] => destruct b
         end; try exact U; destruct Hc as [-> | ->]; reflexivity.
Qed.

Lemma get_not_inherited (A : Type) (a b c d : A) (key : jsstring) :
  in_Object_prototype key = false -> get a b c d key <> Inherited.
Proof.
  intros H. unfold get. rewrite H.
  repeat match goal with
         | |- context [if ?t then _ else _] => destruct t
         end; discriminate.
Qed.

End CompilerMore.

(** On a tree without [Object.prototype] keys, [compile] returns a value. *)
Lemma compile_own_keys :
  forall ast, own_keys ast = true -> exists v, compile ast = Normal v.
Proof.
  induction ast as [val | val expression IH] using Parser_nested_ind.
  - intros _. now exists (VNum val).
  - cbn [own_keys]. intros H. apply andb_prop in H. destruct H as [K O].
    apply negb_true_iff in K. rewrite compile_operation.
    assert (A : exists parts, Array_map compile expression = Normal parts).
    { revert O. induction IH as [|a r Ha _ IHr]; intros O; [now exists []|].
      cbn [forallb] in O. apply andb_prop in O. destruct O as [Oa Or].
      destruct (Ha Oa) as [v Ev]. destruct (IHr Or) as [vs Evs].
      exists (v :: vs). cbn [Array_map]. now rewrite Ev, Evs. }
    destruct A as [parts ->].
    pose proof (@get_not_inherited _ (js "+") (js "-") (js "/") (js "*") _ K) as G.
    fold compile_operationMap in G.
    destruct (compile_operationMap (ToString_opt val));
      [eexists; reflexivity | congruence | eexists; reflexivity].
Qed.

(** X15.  [compile] never looks at values or at the number of operands: on
    every tree in which no operator names a member of [Object.prototype] it
    returns a value, also where [evaluate] raises. *)
Theorem compile_defined :
  forall ast, own_keys ast = true -> exists v, compile ast = Normal v.
Proof. exact compile_own_keys. Qed.

Lemma compile_defined_witness :
  exists v, compile (OperationParser (Some (js "div")) []) = Normal v.
Proof. apply compile_defined. reflexivity. Defined.

(** Where [compile] returns a value, its text holds one opening and one
    closing parenthesis for each operation node. *)
Lemma compile_parentheses_normal :
  forall ast v,
    compile ast = Normal v ->
    occurrences LPAREN (ToString v) = List.length (operations ast)
    /\ occurrences RPAREN (ToString v) = List.length (operations ast).
Proof.
  assert (G : forall c, (c = LPAREN \/ c = RPAREN) ->
              forall ast v, compile ast = Normal v ->
                occurrences c (ToString v) = List.length (operations ast)).
  2:{ intros ast v H. split; apply G; auto. }
  intros c Hc.
  assert (Hle : (c <= 42)%N) by (destruct Hc as [-> | ->]; vm_compute; discriminate).
  induction ast as [val | val expression IH] using Parser_nested_ind; intros v.
  - intros [= <-]. change (ToString (compileNum val)) with (Number_toString val).
    now rewrite (plain_occurrences Hle (plain_Number_toString val)).
  - rewrite compile_operation.
    destruct (Array_map compile expression) as [parts| |] eqn:A; try discriminate.
    assert (S : list_sum (map (occurrences c) (map ToString parts))
                = list_sum (map (fun a => List.length (operations a)) expression)).
    { clear - IH A. revert parts A.
      induction IH as [|a r Ha _ IHr]; intros parts A; cbn [Array_map] in A.
      - now injection A as <-.
      - destruct (compile a) as [x| |] eqn:Ea; try discriminate.
        destruct (Array_map compile r) as [xs| |] eqn:Er; try discriminate.
        injection A as <-. cbn [map].
        change (occurrences c (ToString x)
                + list_sum (map (occurrences c) (map ToString xs))
                = List.length (operations a)
                  + list_sum (map (fun a => List.length (operations a)) r)).
        now rewrite (Ha x eq_refl), (IHr xs eq_refl). }
    assert (Hop : List.length (operations (OperationParser val expression))
                  = 1 + list_sum (map (fun a => List.length (operations a)) expression)).
    { unfold operations at 1. cbn [nodes filter is_number negb List.length].
      now rewrite operations_operands. }
    assert (Hpar : occurrences c (js "(") + occurrences c (js ")") = 1).
    { destruct Hc as [-> | ->]; reflexivity. }
    pose proof (separator_plain (ToString_opt val) Hc) as Hsep.
    assert (W : forall sep,
               occurrences c sep = 0 ->
               Normal (VStr (js "(" ++ join sep (map ToString parts) ++ js ")"))
               = Normal v ->
               occurrences c (ToString v)
               = List.length (operations (OperationParser val expression))).
    { intros sep Hsep' E.
      assert (E' : v = VStr (js "(" ++ join sep (map ToString parts) ++ js ")"))
        by (injection E as <-; reflexivity).
      rewrite E'. cbn [ToString].
      rewrite !occurrences_app, (@occurrences_join c sep _ Hsep'), S, Hop. lia. }
    destruct (compile_operationMap (ToString_opt val)) as [sym| |];
      [|discriminate|]; now apply W.
Qed.

(** X16.  On a tree in which no operator names a member of
    [Object.prototype], [compile] returns a text that holds exactly one
    opening and one closing parenthesis for each operation node of the
    tree.  (A member of [Object.prototype] as operator puts the text of a
    built-in between the operands, which is outside this statement.) *)
Theorem compile_parentheses :
  forall ast,
    own_keys ast = true ->
    exists v,
      compile ast = Normal v
      /\ occurrences LPAREN (ToString v) = List.length (operations ast)
      /\ occurrences RPAREN (ToString v) = List.length (operations ast).
Proof.
  intros ast K. destruct (compile_own_keys ast K) as [v C].
  exists v. split; [exact C | now apply compile_parentheses_normal].
Qed.

Lemma compile_parentheses_witness :
  exists v,
    compile (OperationParser (Some (js "sub"))
               [NumberParser 2%float;
                OperationParser (Some (js "pow")) [NumberParser 1%float; NumberParser 3%float]])
    = Normal v
    /\ occurrences LPAREN (ToString v)
       = List.length
           (operations
              (OperationParser (Some (js "sub"))
                 [NumberParser 2%float;
                  OperationParser (Some (js "pow"))
                    [NumberParser 1%float; NumberParser 3%float]]))
    /\ occurrences RPAREN (ToString v)
       = List.length
           (operations
              (OperationParser (Some (js "sub"))
                 [NumberParser 2%float;
                  OperationParser (Some (js "pow"))
                    [NumberParser 1%float; NumberParser 3%float]])).
Proof. apply compile_parentheses. reflexivity. Defined.

(* ================================================================== *)
(** * The evaluator and the code generator on one tree *)
(* ================================================================== *)

Lemma get_own_recognized (A : Type) (a b c d f : A) (val : option jsstring) :
  get a b c d (ToString_opt val) = Own f -> exists op, operator_of val = Some op.
Proof.
  destruct val as [s|]; [|discriminate]. unfold get, operator_of, ToString_opt.
  destruct (jsstring_eqb s (js "sum")); [now exists Sum|].
  destruct (jsstring_eqb s (js "sub")); [now exists Sub|].
  destruct (jsstring_eqb s (js "div")); [now exists Div|].
  destruct (jsstring_eqb s (js "mul")); [now exists Mul|].
  destruct (in_Object_prototype s); discriminate.
Qed.

(** In the embedding, a tree that evaluates to a number has the four
    operators only (a run through [Object.prototype] is no [Normal] here). *)
Lemma evaluate_normal_recognized :
  forall ast x, evaluate ast = Normal x -> recognized ast = true.
Proof.
  induction ast as [val | val expression IH] using Parser_nested_ind; intros x.
  - reflexivity.
  - rewrite evaluate_operation, recognized_operation.
    destruct (Array_map evaluate expression) as [args| |] eqn:A; try discriminate.
    destruct (evaluate_operationMap (ToString_opt val)) as [f| |] eqn:G;
      try discriminate.
    intros _. destruct (get_own_recognized _ _ _ _ _ G) as [op ->].
    clear G. revert args A.
    induction IH as [|a r Ha _ IHr]; intros args A; [reflexivity|].
    cbn [Array_map] in A. destruct (evaluate a) as [y| |] eqn:Ea; try discriminate.
    destruct (Array_map evaluate r) as [ys| |] eqn:Er; try discriminate.
    cbn [forallb]. now rewrite (Ha y eq_refl), (IHr ys eq_refl).
Qed.

(** X17.  What evaluates also compiles, on a tree in which no operator
    names a member of [Object.prototype]: when [evaluate] returns a number
    for such a tree, [compile] returns a value for it, and that value, as a
    string, is the infix text of the tree with the operators' symbols.
    (With a member of [Object.prototype] as operator the built-in decides
    what [evaluate] returns, which is outside this statement.) *)
Theorem evaluate_then_compile :
  forall ast x,
    own_keys ast = true ->
    evaluate ast = Normal x ->
    exists v, compile ast = Normal v /\ infix ast = Some (ToString v).
Proof.
  intros ast x _ E.
  destruct (compile_recognized ast (evaluate_normal_recognized ast E))
    as (v & C & I & _).
  now exists v.
Qed.

Lemma evaluate_then_compile_witness :
  exists v,
    compile (OperationParser (Some (js "mul")) [NumberParser 2%float; NumberParser 3%float])
    = Normal v
    /\ infix (OperationParser (Some (js "mul")) [NumberParser 2%float; NumberParser 3%float])
       = Some (ToString v).
Proof.
  apply (@evaluate_then_compile
           (OperationParser (Some (js "mul")) [NumberParser 2%float; NumberParser 3%float])
           6%float); reflexivity.
Defined.
